(** * alphapept matching: alignment of runs and match-between-runs

    A shallow embedding of [nbs/09_matching.ipynb] (module
    [alphapept.matching]): the distance estimator [calculate_distance],
    the calibrator [calib_table], the global aligner [align], the
    centering step of [align_datasets], the match probability
    [get_probability], the reference builder and the merge step of
    [match_datasets]; and the distances of many files,
    [calculate_deltas] with [_get_offset_dict_and_columns_to_drop], with
    the pairs and the per-file offsets of [align_datasets] and
    [align_files].

    Numbers.  The notebook computes on numpy [float64] arrays.  The
    embedding keeps the special values of that type that the code
    depends on, NaN and the two infinities, and takes every other number
    as an exact rational: rounding, overflow and the sign of zero are not
    represented. *)

From Stdlib Require Import QArith Qcanon Field.
From stdpp Require Import base option list sorting numbers strings gmap.

Local Open Scope Qc_scope.

(** ** Floating-point values *)

Inductive value : Type :=
  | NaN
  | NInf
  | PInf
  | Num (q : Qc).

Global Instance value_eq_dec : EqDecision value.
Proof. solve_decision. Defined.

Global Instance value_inhabited : Inhabited value := populate NaN.

Definition vnum (z : Z) : value := Num (Qc_of_Z z).

Definition isfinite (v : value) : bool :=
  match v with Num _ => true | _ => false end.

(** Sign of a rational: [Lt] negative, [Eq] zero, [Gt] positive. *)
Definition Qcsgn (q : Qc) : comparison := q ?= 0.

Definition vopp (a : value) : value :=
  match a with
  | NaN => NaN
  | NInf => PInf
  | PInf => NInf
  | Num x => Num (- x)
  end.

Definition vadd (a b : value) : value :=
  match a, b with
  | NaN, _ | _, NaN => NaN
  | PInf, NInf | NInf, PInf => NaN
  | PInf, _ | _, PInf => PInf
  | NInf, _ | _, NInf => NInf
  | Num x, Num y => Num (x + y)
  end.

Definition vsub (a b : value) : value := vadd a (vopp b).

(** An infinity times a value of the given sign. *)
Definition inf_signed (positive : bool) (s : comparison) : value :=
  match s with
  | Eq => NaN
  | Gt => if positive then PInf else NInf
  | Lt => if positive then NInf else PInf
  end.

Definition vsgn (a : value) : option comparison :=
  match a with
  | NaN => None
  | NInf => Some Lt
  | PInf => Some Gt
  | Num x => Some (Qcsgn x)
  end.

Definition vmul (a b : value) : value :=
  match a, b with
  | NaN, _ | _, NaN => NaN
  | Num x, Num y => Num (x * y)
  | PInf, o | o, PInf => from_option (inf_signed true) NaN (vsgn o)
  | NInf, o | o, NInf => from_option (inf_signed false) NaN (vsgn o)
  end.

(** Division as numpy does it on [float64]: a quotient by zero is an
    infinity of the sign of the numerator, [0/0] and [inf/inf] are NaN. *)
Definition vdiv (a b : value) : value :=
  match a, b with
  | NaN, _ | _, NaN => NaN
  | Num x, Num y =>
      if decide (y = 0) then inf_signed true (Qcsgn x) else Num (x / y)
  | Num _, (PInf | NInf) => Num 0
  | (PInf | NInf), (PInf | NInf) => NaN
  | PInf, Num y => match Qcsgn y with Lt => NInf | _ => PInf end
  | NInf, Num y => match Qcsgn y with Lt => PInf | _ => NInf end
  end.

(** [a < b] on floats: false as soon as one side is NaN. *)
Definition vltb (a b : value) : bool :=
  match a, b with
  | NaN, _ | _, NaN => false
  | _, NInf => false
  | NInf, _ => true
  | PInf, _ => false
  | _, PInf => true
  | Num x, Num y => bool_decide (x < y)
  end.

(** [a == b] on floats: NaN is equal to nothing. *)
Definition veqb (a b : value) : bool :=
  match a, b with
  | NaN, _ | _, NaN => false
  | _, _ => bool_decide (a = b)
  end.

(** The order numpy sorts by: the usual order, then NaN last. *)
Definition vle (a b : value) : Prop :=
  match a, b with
  | _, NaN => True
  | NaN, _ => False
  | NInf, _ => True
  | _, NInf => False
  | _, PInf => True
  | PInf, _ => False
  | Num x, Num y => x ≤ y
  end.

Global Instance vle_dec : RelDecision vle.
Proof. intros [| | |x] [| | |y]; simpl; apply _. Defined.

(** ** Exceptions *)

Inductive exn : Type :=
  | NotImplementedError (msg : string)
  | KeyError (key : string)
  | ValueError
  | IndexError
  | LinAlgError.

Global Instance exn_eq_dec : EqDecision exn.
Proof. solve_decision. Defined.

Inductive result (A : Type) : Type :=
  | Ok (a : A)
  | Raise (e : exn).
Global Arguments Ok {A} a.
Global Arguments Raise {A} e.

Global Instance result_eq_dec `{EqDecision A} : EqDecision (result A).
Proof. solve_decision. Defined.

Global Instance result_ret : MRet result := λ A a, Ok a.
Global Instance result_bind : MBind result := λ A B f m,
  match m with
  | Ok a => f a
  | Raise e => Raise e
  end.

(** [try: m except Exception: h] *)
Definition try_except {A} (m : result A) (h : exn → result A) : result A :=
  match m with
  | Ok a => Ok a
  | Raise e => h e
  end.

(** ** Arrays *)

Abbreviation matrix := (list (list value)).

(** A binary operator on two one-dimensional arrays, with numpy's
    broadcasting of an array of length one. *)
Definition broadcast2 (f : value → value → value) (a b : list value)
    : result (list value) :=
  if decide (length a = length b) then Ok (zip_with f a b)
  else match a, b with
       | [x], _ => Ok (f x <$> b)
       | _, [y] => Ok ((λ x, f x y) <$> a)
       | _, _ => Raise ValueError
       end.

Definition vsum (a : list value) : value := foldl vadd (vnum 0) a.

Definition dropna (a : list value) : list value :=
  filter (λ v, v ≠ NaN) a.

(** Median of a sorted array without NaN: the middle element, or the
    mean of the two middle elements. *)
Definition median_sorted (xs : list value) : value :=
  let n := length xs in
  if decide (n = 0%nat) then NaN
  else if Nat.odd n then xs !!! (n / 2)%nat
  else vdiv (vadd (xs !!! (n / 2 - 1)%nat) (xs !!! (n / 2)%nat)) (vnum 2).

(** [np.nanmedian]: the median of the entries that are not NaN; NaN when
    there is none. *)
Definition nanmedian (a : list value) : value :=
  median_sorted (merge_sort vle (dropna a)).

(** [Series.mean()] and [DataFrame.mean()] of pandas skip NaN. *)
Definition series_mean (a : list value) : value :=
  let xs := dropna a in
  if decide (xs = []) then NaN
  else vdiv (vsum xs) (vnum (Z.of_nat (length xs))).

(** ** Tables *)

(** A numeric data frame: the row labels and the columns by name.  Every
    column of a well-formed frame is as long as the index. *)
Record DataFrame : Type := mkDataFrame {
  df_index : list string;
  df_columns : gmap string (list value)
}.

Global Instance DataFrame_eq_dec : EqDecision DataFrame.
Proof. solve_decision. Defined.

Definition df_wf (t : DataFrame) : Prop :=
  map_Forall (λ _ vs, length vs = length (df_index t)) (df_columns t).

Definition has_column (t : DataFrame) (c : string) : bool :=
  bool_decide (is_Some (df_columns t !! c)).

(** [table[c]] *)
Definition getcol (t : DataFrame) (c : string) : result (list value) :=
  match df_columns t !! c with
  | Some vs => Ok vs
  | None => Raise (KeyError c)
  end.

(** [table[c] = vs] *)
Definition setcol (t : DataFrame) (c : string) (vs : list value) : DataFrame :=
  {| df_index := df_index t; df_columns := <[c := vs]> (df_columns t) |}.

(** The positions of label [k] in an index, counted from [i]. *)
Fixpoint positions (k : string) (idx : list string) (i : nat) : list nat :=
  match idx with
  | [] => []
  | x :: idx' =>
      if decide (x = k) then i :: positions k idx' (S i)
      else positions k idx' (S i)
  end.

Fixpoint loc_positions (idx : list string) (keys : list string)
    : result (list nat) :=
  match keys with
  | [] => Ok []
  | k :: keys' =>
      match positions k idx 0 with
      | [] => Raise (KeyError k)
      | ps => ps' ← loc_positions idx keys'; Ok (ps ++ ps')
      end
  end.

Definition take_rows {A} `{Inhabited A} (l : list A) (ps : list nat) : list A :=
  (λ p, l !!! p) <$> ps.

(** [table.loc[keys]]: the rows labelled by each key in turn (all of
    them when a label occurs more than once); a key that labels no row
    raises [KeyError]. *)
Definition loc (t : DataFrame) (keys : list string) : result DataFrame :=
  ps ← loc_positions (df_index t) keys;
  Ok {| df_index := take_rows (df_index t) ps;
        df_columns := (λ vs, take_rows vs ps) <$> df_columns t |}.

(** ** Distance estimator *)

Definition _calculate_deltas_abs (values1 values2 : list value) : result value :=
  d ← broadcast2 vsub values1 values2;
  Ok (nanmedian d).

Definition _calculate_deltas_rel (values1 values2 : list value) : result value :=
  d ← broadcast2 vsub values1 values2;
  s ← broadcast2 vadd values1 values2;
  q ← broadcast2 vdiv d s;
  Ok (nanmedian ((λ x, vmul x (vnum 2)) <$> q)).

(** An [offset_dict] maps a column to its mode; Python iterates over it
    in insertion order. *)
Abbreviation offset_dict := (list (string * string)).

Definition calib_name (col : string) : string := col +:+ "_calib".
Definition apex_name (col : string) : string := col +:+ "_apex".

(** The loop [for col in offset_dict] of [calculate_distance]. *)
Fixpoint calculate_distance_loop (table_1_ table_2_ : DataFrame)
    (od : offset_dict) (calib : bool) : result (list value) :=
  match od with
  | [] => Ok []
  | (col, mode) :: od' =>
      let col_ := if calib then calib_name col else col in
      d ← (if decide (mode = "absolute") then
             values1 ← getcol table_1_ col_;
             values2 ← getcol table_2_ col_;
             _calculate_deltas_abs values1 values2
           else if decide (mode = "relative") then
             values1 ← getcol table_1_ col_;
             values2 ← getcol table_2_ col_;
             _calculate_deltas_rel values1 values2
           else Raise (NotImplementedError
                         ("Calculating delta for " +:+ mode +:+ " not implemented.")));
      deltas ← calculate_distance_loop table_1_ table_2_ od' calib;
      Ok (d :: deltas)
  end.

(** The body of [calculate_distance] once the shared precursors have
    been listed.  Python lists a set in an order of its own, so the
    order is left to the caller here. *)
Definition calculate_distance_on (shared_precursors : list string)
    (table_1 table_2 : DataFrame) (od : offset_dict) (calib : bool)
    : result (list value * nat) :=
  table_1_ ← loc table_1 shared_precursors;
  table_2_ ← loc table_2 shared_precursors;
  deltas ← calculate_distance_loop table_1_ table_2_ od calib;
  Ok (deltas, length shared_precursors).

Definition index_set (t : DataFrame) : gset string := list_to_set (df_index t).

Definition shared_precursors (table_1 table_2 : DataFrame) : list string :=
  elements (index_set table_1 ∩ index_set table_2).

Definition calculate_distance (table_1 table_2 : DataFrame)
    (od : offset_dict) (calib : bool) : result (list value * nat) :=
  calculate_distance_on (shared_precursors table_1 table_2)
    table_1 table_2 od calib.

(** The column that [calculate_distance] reads for a dimension. *)
Definition distance_column (calib : bool) (col : string) : string :=
  if calib then calib_name col else col.

(** *** The distance as the specification words it *)

(** The value of column [c] in the row labelled [k]. *)
Definition value_at (t : DataFrame) (c k : string) : value :=
  match list_find (λ x, x = k) (df_index t), df_columns t !! c with
  | Some (i, _), Some vs => vs !!! i
  | _, _ => NaN
  end.

Definition spec_difference (mode : string) (v1 v2 : value) : value :=
  if decide (mode = "absolute") then vsub v1 v2
  else vdiv (vmul (vnum 2) (vsub v1 v2)) (vadd v1 v2).

Definition spec_distance (table_1 table_2 : DataFrame) (calib : bool)
    (dim : string * string) : value :=
  let c := distance_column calib dim.1 in
  nanmedian
    ((λ k, spec_difference dim.2 (value_at table_1 c k) (value_at table_2 c k))
       <$> shared_precursors table_1 table_2).

Definition valid_mode (mode : string) : Prop :=
  mode = "absolute" ∨ mode = "relative".

Global Instance valid_mode_dec mode : Decision (valid_mode mode).
Proof. unfold valid_mode. apply _. Defined.

(** Every mode of the mapping is supported, and both tables hold the
    column of every dimension. *)
Definition dims_available (table_1 table_2 : DataFrame) (od : offset_dict)
    (calib : bool) : Prop :=
  Forall (λ dim, valid_mode dim.2 ∧
                 has_column table_1 (distance_column calib dim.1) = true ∧
                 has_column table_2 (distance_column calib dim.1) = true) od.

(** *** A table compared with itself *)

(** A value whose difference with itself is defined: a finite number,
    and in relative mode not zero. *)
Definition usable (mode : string) (v : value) : bool :=
  match v with
  | Num q => if decide (mode = "absolute") then true else bool_decide (q ≠ 0)
  | _ => false
  end.

Definition self_distance (table : DataFrame) (calib : bool)
    (dim : string * string) : value :=
  match df_columns table !! distance_column calib dim.1 with
  | Some vs => if existsb (usable dim.2) vs then vnum 0 else NaN
  | None => NaN
  end.

(** ** Calibrator *)

(** [delta[c]] on the series of one run's offsets. *)
Definition getdelta (delta : gmap string value) (c : string) : result value :=
  match delta !! c with
  | Some d => Ok d
  | None => Raise (KeyError c)
  end.

(** One turn of the loop of [calib_table]. *)
Definition calib_column (table : DataFrame) (delta : gmap string value)
    (col mode : string) : result DataFrame :=
  let col_ :=
    if negb (has_column table col) && has_column table (apex_name col)
    then apex_name col else col in
  if decide (mode = "absolute") then
    src ← getcol table col_;
    d ← getdelta delta col;
    Ok (setcol table (calib_name col) ((λ v, vsub v d) <$> src))
  else if decide (mode = "relative") then
    d ← getdelta delta col_;
    src ← getcol table col;
    Ok (setcol table (calib_name col) ((λ v, vmul (vsub (vnum 1) d) v) <$> src))
  else Raise (NotImplementedError mode).

(** [calib_table] updates the table in place: the result is the table as
    the call leaves it, and the exception raised, if any. *)
Fixpoint calib_table (table : DataFrame) (delta : gmap string value)
    (od : offset_dict) : DataFrame * option exn :=
  match od with
  | [] => (table, None)
  | (col, mode) :: od' =>
      match calib_column table delta col mode with
      | Ok table' => calib_table table' delta od'
      | Raise e => (table, Some e)
      end
  end.

(** The calibrated column as the specification words it. *)
Definition spec_source (table : DataFrame) (col : string) : string :=
  if has_column table col then col else apex_name col.

Definition spec_calibrated (mode : string) (offset : value) (src : list value)
    : list value :=
  if decide (mode = "absolute") then (λ v, vsub v offset) <$> src
  else (λ v, vmul v (vsub (vnum 1) offset)) <$> src.

(** ** Global aligner *)

Inductive log_record : Type :=
  | LowOverlap
  | RegressionScore (score : value).

Global Instance log_record_eq_dec : EqDecision log_record.
Proof. solve_decision. Defined.

(** [l.index(x)] *)
Definition list_index (l : list string) (x : string) : result nat :=
  match list_find (λ y, y = x) l with
  | Some (i, _) => Ok i
  | None => Raise ValueError
  end.

(** [lines = np.zeros(n); lines[start:stop] = 1] *)
Definition slice_ones (n start stop : nat) : list value :=
  (λ j, if decide (start ≤ j < stop)%nat then vnum 1 else vnum 0) <$> seq 0 n.

(** Boolean-mask indexing, [a[m]]. *)
Definition mask {A} (a : list A) (m : list bool) : list A :=
  (filter (λ p, p.2 = true) (zip a m)).*1.

Definition eye (n : nat) : matrix :=
  (λ i, (λ j, if decide (i = j) then vnum 1 else vnum 0) <$> seq 0 n) <$> seq 0 n.

Definition column (j : nat) (m : matrix) : list value :=
  (λ row, row !!! j) <$> m.

(** The table of pairwise distances: one row for each compared pair of
    files, labelled by the pair. *)
Abbreviation deltas_table := (list ((string * string) * list value)).

(** The design matrix of [align]: the row of a pair has ones from the
    position of its first file up to the position of its second. *)
Fixpoint align_matrix (filenames : list string) (deltas : deltas_table)
    : result matrix :=
  match deltas with
  | [] => Ok []
  | ((start, stop), _) :: deltas' =>
      start_idx ← list_index filenames start;
      end_idx ← list_index filenames stop;
      let lines := slice_ones (length filenames - 1) start_idx end_idx in
      m ← align_matrix filenames deltas';
      Ok (lines :: m)
  end.

(** [~deltas.isnull().any(axis=1)] *)
Definition not_nan_mask (deltas : deltas_table) : list bool :=
  (λ row, bool_decide (Forall (λ v, v ≠ NaN) row.2)) <$> deltas.

Section aligner.
(** [sklearn.linear_model.LinearRegression(fit_intercept=False)] is
    taken as given: a fit (which may raise), the score of a fitted
    model and its prediction. *)
Context {regressor : Type}.
Variable fit :
  option Z → matrix → matrix → option (list value) → result regressor.
Variable score : regressor → matrix → matrix → value.
Variable predict : regressor → matrix → matrix.

(** [align] returns the records it logged and its outcome. *)
Definition align (deltas : deltas_table) (filenames : list string)
    (weights : option (list value)) (n_jobs : option Z)
    : list log_record * result matrix :=
  match align_matrix filenames deltas with
  | Raise e => ([], Raise e)
  | Ok matrix0 =>
      let not_nan := not_nan_mask deltas in
      let matrix1 := mask matrix0 not_nan in
      let deltas_ := mask (deltas.*2) not_nan in
      match deltas with
      | [] => ([], Raise IndexError)
      | _ =>
          let unknowns := (length filenames - 1)%nat in
          let log1 :=
            if decide (length deltas < unknowns)%nat then [LowOverlap] else [] in
          let fitted :=
            match weights with
            | Some w =>
                if decide (length w = length not_nan)
                then fit n_jobs matrix1 deltas_ (Some (mask w not_nan))
                else Raise IndexError
            | None => fit n_jobs matrix1 deltas_ None
            end in
          match fitted with
          | Raise e => (log1, Raise e)
          | Ok reg =>
              (log1 ++ [RegressionScore (score reg matrix1 deltas_)],
               Ok (predict reg (eye unknowns)))
          end
      end
  end.

(** The comparisons that [align] hands to the regression. *)
Definition valid_comparisons (deltas : deltas_table) : list (list value) :=
  mask (deltas.*2) (not_nan_mask deltas).

Definition zeros (n : nat) : list value := replicate n (vnum 0).

(** [pd.concat([alignment, pd.DataFrame(np.zeros((1, k)))])] *)
Definition with_reference_row (ncols : nat) (x : matrix) : matrix :=
  x ++ [zeros ncols].

Definition frame_mean (ncols : nat) (m : matrix) : list value :=
  (λ j, series_mean (column j m)) <$> seq 0 ncols.

(** [alignment -= alignment.mean()] *)
Definition mean_center (ncols : nat) (alignment : matrix) : matrix :=
  (λ row, zip_with vsub row (frame_mean ncols alignment)) <$> alignment.

(** The alignment that [align_datasets] hands to [align_files], from
    the distances that [calculate_deltas] returned; [None] when there
    is only one file and the alignment is skipped. *)
Definition align_datasets_alignment (filenames : list string)
    (deltas : deltas_table) (weights : list value) (od : offset_dict)
    (n_processes : Z) : list log_record * result (option matrix) :=
  if decide (1 < length filenames)%nat then
    let cols := od.*1 in
    let n_jobs := if decide (60 < n_processes)%Z then 60%Z else n_processes in
    match align deltas filenames (Some weights) (Some n_jobs) with
    | (log, Raise e) => (log, Raise e)
    | (log, Ok x) =>
        if decide (Forall (λ row, length row = length cols) x) then
          let alignment := with_reference_row (length cols) x in
          (log, Ok (Some (mean_center (length cols) alignment)))
        else (log, Raise ValueError)
    end
  else ([], Ok None).
End aligner.

(** ** Match probability *)

(** Determinant by expansion along the first row. *)
Fixpoint det_rec (n : nat) (m : matrix) : value :=
  match n, m with
  | S n', row :: rest =>
      vsum (imap (λ j a,
                    vmul (if Nat.even j then a else vopp a)
                         (det_rec n' (delete j <$> rest))) row)
  | _, _ => vnum 1
  end.

Definition det (m : matrix) : value := det_rec (length m) m.

Definition cofactor (i j : nat) (m : matrix) : value :=
  let d := det (delete j <$> delete i m) in
  if Nat.even (i + j) then d else vopp d.

Definition singular (m : matrix) : Prop := det m = vnum 0.

(** [np.linalg.inv]: the inverse of a square matrix; [LinAlgError] when
    the matrix is not square or is singular. *)
Definition linalg_inv (m : matrix) : result matrix :=
  let n := length m in
  if decide (Forall (λ row, length row = n) m) then
    let d := det m in
    if veqb d (vnum 0) then Raise LinAlgError
    else Ok ((λ i, (λ j, vdiv (cofactor j i m) d) <$> seq 0 n) <$> seq 0 n)
  else Raise LinAlgError.

Definition dot_vv (a b : list value) : result value :=
  if decide (length a = length b) then Ok (vsum (zip_with vmul a b))
  else Raise ValueError.

Definition dot_vm (a : list value) (m : matrix) : result (list value) :=
  if decide (length a = length m) then
    Ok ((λ j, vsum (zip_with vmul a (column j m)))
          <$> seq 0 (length (default [] (head m))))
  else Raise ValueError.

(** [frame.iloc[index].values] *)
Definition iloc (frame : matrix) (index : nat) : result (list value) :=
  match frame !! index with
  | Some row => Ok row
  | None => Raise IndexError
  end.

(** [sigma*np.eye(len(sigma))] *)
Definition diag_cov (sigma : list value) : matrix :=
  (λ row, zip_with vmul sigma row) <$> eye (length sigma).

Section probability.
(** [scipy.stats.chi2.cdf] is taken as given. *)
Variable chi2_cdf : value → nat → value.

Definition get_probability (df ref sigma : matrix) (index : nat)
    : result value :=
  sigma_row ← iloc sigma index;
  let sigma' := diag_cov sigma_row in
  mu ← iloc ref index;
  x ← iloc df index;
  try_except
    (d ← broadcast2 vsub x mu;
     inv ← linalg_inv sigma';
     m_dist_x ← dot_vm d inv;
     d' ← broadcast2 vsub x mu;
     m_dist_x' ← dot_vv m_dist_x d';
     Ok (chi2_cdf m_dist_x' (length mu)))
    (λ _, Ok NaN).
End probability.

(** [matched[matched['matching_p'] < match_p_min]] keeps a candidate
    when this test holds. *)
Definition accepts (matching_p match_p_min : value) : bool :=
  vltb matching_p match_p_min.

Definition filter_by_probability {A} (match_p_min : value)
    (matched : list (A * value)) : list (A * value) :=
  filter (λ c, accepts c.2 match_p_min = true) matched.

(** ** Reference builder *)

Definition convert_decoy (float_ : value) : bool :=
  if veqb float_ (vnum 1) then true else false.

(** A row of the pooled [peptide_fdr] table, with the columns that the
    reference is computed from. *)
Record peptide : Type := mkPeptide {
  pep_shortname : string;
  pep_precursor : string;
  pep_coords : list value;   (* mz_calib, rt_calib and, if present, mobility_calib *)
  pep_score : value;
  pep_decoy : bool;
  pep_target : bool
}.

Record reference_row : Type := mkReferenceRow {
  ref_coords : list value;
  ref_score : value;
  ref_decoy : bool;
  ref_target : bool
}.

(** pandas averages a boolean column as zeros and ones. *)
Definition flag_value (b : bool) : value := if b then vnum 1 else vnum 0.

Definition flag_mean (flags : list bool) : value :=
  series_mean (flag_value <$> flags).

Definition group_rows (xx : list peptide) (k : string) : list peptide :=
  filter (λ r, pep_precursor r = k) xx.

Record settings : Type := mkSettings {
  file_paths : list string;
  shortnames : list string;
  matching_group : list Z;
  match_group_tol : Z;
  match_p_min : value;
  match_d_min : value
}.

(** [alignment_cols] has two columns, and a third when the pooled table
    has a mobility column. *)
Definition n_alignment_cols (use_mobility : bool) : nat :=
  if use_mobility then 3%nat else 2%nat.

Definition coord (j : nat) (r : peptide) : value := pep_coords r !!! j.

(** One row of [grouped], from the pooled rows of one precursor: the
    means of [groupby('precursor').mean()], with the two flags converted
    back. *)
Definition summarize (use_mobility : bool) (rows : list peptide) : reference_row :=
  {| ref_coords :=
       (λ j, series_mean (coord j <$> rows)) <$> seq 0 (n_alignment_cols use_mobility);
     ref_score := series_mean (pep_score <$> rows);
     ref_decoy := convert_decoy (flag_mean (pep_decoy <$> rows));
     ref_target := convert_decoy (flag_mean (pep_target <$> rows)) |}.

(** A table computed for each precursor of the pooled rows. *)
Definition groupby_precursor {A} (f : list peptide → A) (xx : list peptide)
    : gmap string A :=
  list_to_map ((λ r, (pep_precursor r, f (group_rows xx (pep_precursor r)))) <$> xx).

(** [grouped] *)
Definition build_reference (use_mobility : bool) (xx : list peptide)
    : gmap string reference_row :=
  groupby_precursor (summarize use_mobility) xx.

Section deviations.
(** [Series.std()] of pandas is taken as given. *)
Variable series_std : list value → value.

(** [std_] *)
Definition build_std (use_mobility : bool) (xx : list peptide)
    : gmap string (list value) :=
  groupby_precursor
    (λ rows, (λ j, series_std (coord j <$> rows))
               <$> seq 0 (n_alignment_cols use_mobility)) xx.
End deviations.

Definition groups_of (s : settings) : list Z :=
  if decide (matching_group s = []) then replicate (length (shortnames s)) 0%Z
  else matching_group s.

(** The files whose group label lies between [lo] and [hi]. *)
Definition files_between (s : settings) (lo hi : Z) : list string :=
  (filter (λ p, (lo ≤ p.2 ∧ p.2 ≤ hi)%Z) (zip (shortnames s) (groups_of s))).*1.

Definition files_from (s : settings) (group : Z) : list string :=
  files_between s (group - match_group_tol s) (group + match_group_tol s).

Definition files_to (s : settings) (group : Z) : list string :=
  files_between s group group.

(** The rows of the pooled table that one matching group draws on. *)
Definition pooled_rows (s : settings) (x : list peptide) (group : Z) : list peptide :=
  filter (λ r, pep_shortname r ∈ files_from s group) x.

(** The reference that [match_datasets] builds for one matching group;
    [None] when the group is skipped. *)
Definition group_reference (use_mobility : bool) (s : settings)
    (x : list peptide) (group : Z) : option (gmap string reference_row) :=
  if decide (2 < length (files_from s group))%nat then
    Some (build_reference use_mobility (pooled_rows s x group))
  else None.

(** The references of a whole call of [match_datasets]. *)
Definition match_datasets_references (use_mobility : bool) (s : settings)
    (x : list peptide) : list (Z * option (gmap string reference_row)) :=
  if decide (2 < length (file_paths s))%nat then
    (λ g, (g, group_reference use_mobility s x g))
      <$> elements (list_to_set (groups_of s) : gset Z)
  else [].

(** The candidates for one target file: the precursors of the reference
    that the file has not identified. *)
Definition matching_set (grouped : gmap string reference_row)
    (identified : list string) : list string :=
  elements (dom grouped ∖ list_to_set identified).

(** The number of runs among the pooled rows in which a precursor was
    observed. *)
Definition runs_observing (xx : list peptide) (k : string) : nat :=
  size (list_to_set (pep_shortname <$> group_rows xx k) : gset string).

(** ** Merging matches into the identifications *)

Inductive cell : Type :=
  | CNum (v : value)
  | CStr (s : string)
  | CBool (b : bool).

(** A table with a positional index: its length and its columns. *)
Record Table : Type := mkTable {
  tb_len : nat;
  tb_columns : gmap string (list cell)
}.

(** [t[c] = x] for a scalar [x] *)
Definition tb_assign (t : Table) (c : string) (x : cell) : Table :=
  {| tb_len := tb_len t;
     tb_columns := <[c := replicate (tb_len t) x]> (tb_columns t) |}.

(** [t[cols]] *)
Definition tb_select (t : Table) (cols : gset string) : Table :=
  {| tb_len := tb_len t;
     tb_columns := filter (λ kv, kv.1 ∈ cols) (tb_columns t) |}.

(** [pd.concat([a, b], ignore_index=True)]: the rows of [a], then the
    rows of [b]; a column that one side lacks is filled with NaN. *)
Definition tb_concat (a b : Table) : Table :=
  {| tb_len := tb_len a + tb_len b;
     tb_columns :=
       merge (λ ca cb,
                match ca, cb with
                | None, None => None
                | _, _ =>
                    Some (default (replicate (tb_len a) (CNum NaN)) ca ++
                          default (replicate (tb_len b) (CNum NaN)) cb)
                end)
             (tb_columns a) (tb_columns b) |}.

(** The end of the loop over target files in [match_datasets]: the table
    written back as [peptide_fdr]. *)
Definition merge_matches (df matched : Table) : Table :=
  let df1 := tb_assign df "type" (CStr "msms") in
  let df2 := tb_assign df1 "matching_p" (CNum NaN) in
  let shared_columns := dom (tb_columns matched) ∩ dom (tb_columns df2) in
  tb_concat df2 (tb_select matched shared_columns).

(** ** Failures that reach the caller *)

Definition raised {A} (r : result A) : option exn :=
  match r with Ok _ => None | Raise e => Some e end.

Definition unsupported (e : option exn) : Prop :=
  match e with Some (NotImplementedError _) => True | _ => False end.

Definition unsupported_mode_in (od : offset_dict) : Prop :=
  Exists (λ dim, ¬ valid_mode dim.2) od.

(** Both tables hold the column of every dimension. *)
Definition columns_available (table_1 table_2 : DataFrame) (od : offset_dict)
    (calib : bool) : Prop :=
  Forall (λ dim, has_column table_1 (distance_column calib dim.1) = true ∧
                 has_column table_2 (distance_column calib dim.1) = true) od.

(** The table holds the column of every dimension, and the series of
    offsets its offset. *)
Definition offsets_available (table : DataFrame) (delta : gmap string value)
    (od : offset_dict) : Prop :=
  Forall (λ dim, has_column table dim.1 = true ∧ is_Some (delta !! dim.1)) od.

(** ** Distances of many files, offsets of one file *)

(** [_get_offset_dict_and_columns_to_drop]: the mapping from the columns
    to their modes, and the columns that the alignment does not need
    (the message printed when mobility is used is left out). *)
Definition _get_offset_dict_and_columns_to_drop
    (input_data_columns : list string) (calib : bool)
    : offset_dict * list string :=
  let offset_dict := [("mz", "relative"); ("rt", "absolute")] in
  let offset_dict :=
    if decide ("mobility" ∈ input_data_columns)
    then offset_dict ++ [("mobility", "relative")]
    else offset_dict in
  let suffix := if calib then "_calib" else "" in
  let columns_to_align := (λ key, key +:+ suffix) <$> offset_dict.*1 in
  let columns_to_keep := columns_to_align ++ ["precursor"] in
  let columns_to_drop :=
    filter (λ col, col ∉ columns_to_keep) input_data_columns in
  (offset_dict, columns_to_drop).

(** [d[k] = v] on a dictionary, which Python keeps in insertion order:
    the value of a key that is present is replaced where it stands. *)
Fixpoint dict_set {K V} `{EqDecision K} (d : list (K * V)) (k : K) (v : V)
    : list (K * V) :=
  match d with
  | [] => [(k, v)]
  | (k', v') :: d' =>
      if decide (k' = k) then (k, v) :: d' else (k', v') :: dict_set d' k v
  end.

(** What [calculate_deltas] keeps between two turns of its loops: the
    mapping and the columns to drop, both fixed by the first table that
    is read, and the cache of the averaged tables.  The files read so
    far are recorded next to them, latest last. *)
Record deltas_state : Type := mkDeltasState {
  st_offset_dict : offset_dict;
  st_columns_to_drop : list string;
  st_cache : gmap string DataFrame;
  st_reads : list string
}.

Definition deltas_state_init : deltas_state :=
  mkDeltasState [] [] ∅ [].

Section calculate_deltas.
(** The name of the data file of a raw file,
    [os.path.splitext(f)[0] + '.ms_data.hdf'], the reading of its
    [peptide_fdr] table by [alphapept.io], and [df.columns],
    [df.drop(columns=...)] and [df.groupby('precursor').mean()] of pandas
    are taken as given. *)
Context {raw : Type}.
Variable ms_data_file : string → string.
Variable read_peptide_fdr : string → result raw.
Variable raw_columns : raw → list string.
Variable drop_columns : raw → list string → result raw.
Variable groupby_precursor_mean : raw → result DataFrame.

(** One turn of [for filename in [filename1, filename2]]. *)
Definition cache_table (calib : bool) (filename : string) (st : deltas_state)
    : deltas_state * result () :=
  if decide (is_Some (st_cache st !! filename)) then (st, Ok ())
  else
    let reads := st_reads st ++ [filename] in
    match read_peptide_fdr filename with
    | Raise e =>
        (mkDeltasState (st_offset_dict st) (st_columns_to_drop st)
           (st_cache st) reads, Raise e)
    | Ok df =>
        let '(od, columns_to_drop) :=
          if decide (st_offset_dict st = [])
          then _get_offset_dict_and_columns_to_drop (raw_columns df) calib
          else (st_offset_dict st, st_columns_to_drop st) in
        match df' ← drop_columns df columns_to_drop;
              groupby_precursor_mean df' with
        | Raise e =>
            (mkDeltasState od columns_to_drop (st_cache st) reads, Raise e)
        | Ok df_mean =>
            (mkDeltasState od columns_to_drop
               (<[filename := df_mean]> (st_cache st)) reads, Ok ())
        end
    end.

(** [df_cache[filename]] *)
Definition cached (st : deltas_state) (filename : string) : result DataFrame :=
  match st_cache st !! filename with
  | Some df => Ok df
  | None => Raise (KeyError filename)
  end.

(** The loop over the pairs of [calculate_deltas] (the progress callback
    is left out). *)
Fixpoint calculate_deltas_loop (calib : bool) (combos : list (string * string))
    (st : deltas_state) (deltas : deltas_table) (weights : list nat)
    : deltas_state * result (deltas_table * list nat) :=
  match combos with
  | [] => (st, Ok (deltas, weights))
  | combo :: combos' =>
      let filename1 := ms_data_file combo.1 in
      let filename2 := ms_data_file combo.2 in
      match cache_table calib filename1 st with
      | (st1, Raise e) => (st1, Raise e)
      | (st1, Ok _) =>
          match cache_table calib filename2 st1 with
          | (st2, Raise e) => (st2, Raise e)
          | (st2, Ok _) =>
              match df_1_mean ← cached st2 filename1;
                    df_2_mean ← cached st2 filename2;
                    calculate_distance df_1_mean df_2_mean
                      (st_offset_dict st2) calib with
              | Raise e => (st2, Raise e)
              | Ok (dists, weight) =>
                  calculate_deltas_loop calib combos' st2
                    (dict_set deltas combo dists) (weights ++ [weight])
              end
          end
      end
  end.

(** [calculate_deltas] returns the files it read, in the order of the
    reads, and its outcome: the table of the distances, the weights and
    the mapping. *)
Definition calculate_deltas (combos : list (string * string)) (calib : bool)
    : list string * result (deltas_table * list nat * offset_dict) :=
  match calculate_deltas_loop calib combos deltas_state_init [] [] with
  | (st, Raise e) => (st_reads st, Raise e)
  | (st, Ok (deltas, weights)) =>
      (st_reads st, Ok (deltas, weights, st_offset_dict st))
  end.
End calculate_deltas.

(** [list(itertools.combinations(l, 2))] *)
Fixpoint combinations2 {A} (l : list A) : list (A * A) :=
  match l with
  | [] => []
  | x :: l' => ((λ y, (x, y)) <$> l') ++ combinations2 l'
  end.


(** ** Definitions used in the statements *)

(** Sum and product of a list of rationals. *)
Definition Qcsum (qs : list Qc) : Qc := foldl Qcplus 0 qs.

Definition Qcprod (qs : list Qc) : Qc := foldr Qcmult 1 qs.


(** A matrix whose entries are all finite. *)
Definition finite_matrix (m : matrix) : Prop :=
  Forall (Forall (λ v, isfinite v = true)) m.

(** The position of the first row labelled [k] in an index. *)
Definition position (idx : list string) (k : string) : nat :=
  default 0%nat (fst <$> list_find (λ x, x = k) idx).

(** The values of column [c] in the rows labelled by [keys]. *)
Definition column_values (t : DataFrame) (c : string) (keys : list string)
    : list value :=
  (λ k, value_at t c k) <$> keys.

(** [t_] holds the rows of [t] labelled by [keys], column by column. *)
Definition reads_as (t_ t : DataFrame) (keys : list string) : Prop :=
  ∀ c, getcol t_ c =
       match df_columns t !! c with
       | Some _ => Ok (column_values t c keys)
       | None => Raise (KeyError c)
       end.

(** The differences of one dimension over the rows labelled by [keys]. *)
Definition paired_differences (t1 t2 : DataFrame) (calib : bool)
    (keys : list string) (dim : string * string) : list value :=
  (λ k, spec_difference dim.2
          (value_at t1 (distance_column calib dim.1) k)
          (value_at t2 (distance_column calib dim.1) k)) <$> keys.

(** The part of column [c] that [merge_matches] appends below the rows of
    the identification table: the column of the matches when they have
    it, NaN otherwise. *)
Definition appended (matched : Table) (c : string) : list cell :=
  default (replicate (tb_len matched) (CNum NaN)) (tb_columns matched !! c).

(** Three runs in one matching group; precursor P is identified in two
    of them, precursor Q in all three. *)
Definition c3_settings : settings :=
  mkSettings ["a.raw"; "b.raw"; "c.raw"] ["a"; "b"; "c"] [] 0 (vnum 1) (vnum 1).

Definition c3_row (run key : string) (mz rt : Z) : peptide :=
  mkPeptide run key [vnum mz; vnum rt] (vnum 1) false true.

Definition c3_pooled : list peptide :=
  [ c3_row "a" "P" 500 10; c3_row "b" "P" 501 11;
    c3_row "a" "Q" 700 20; c3_row "b" "Q" 700 21; c3_row "c" "Q" 701 20 ].

(** Three runs of which only the pair (B, C) shares precursors. *)
Definition c7_filenames : list string := ["A"; "B"; "C"].

Definition c7_deltas : deltas_table :=
  [ (("A", "B"), [NaN]); (("A", "C"), [NaN]); (("B", "C"), [vnum 1]) ].

(** The tables of the notebook's [test_calculate_distance]. *)
Definition test_df_1 : DataFrame :=
  mkDataFrame ["A"; "B"; "C"; "D"; "E"]
    {[ "mass" := vnum <$> [10; 20; 30; 40; 50]%Z;
       "mobility" := vnum <$> [10; 20; 30; 40; 50]%Z ]}.

Definition test_df_2 : DataFrame :=
  mkDataFrame ["A"; "B"; "C"; "D"; "F"]
    {[ "mass" := vnum <$> [11; 21; 31; 41; 51]%Z;
       "mobility" := vnum <$> [30; 60; 90; 120; 150]%Z ]}.

Definition test_offset_dict : offset_dict :=
  [("mass", "absolute"); ("mobility", "relative")].

(** A mapping with a mode that is not supported, and offsets for it. *)
Definition test_bad_offset_dict : offset_dict :=
  [("mass", "absolute"); ("mobility", "linear")].

Definition test_delta : gmap string value :=
  {[ "mass" := vnum 1; "mobility" := vnum 0 ]}.


(** The table holds, for every dimension, an offset and the column that
    [calib_table] reads: the column of the dimension or, in absolute
    mode, its apex column when the table lacks the column. *)
Definition calibratable (table : DataFrame) (delta : gmap string value)
    (od : offset_dict) : Prop :=
  Forall (λ dim, is_Some (delta !! dim.1) ∧
                 has_column table (spec_source table dim.1) = true ∧
                 (dim.2 = "absolute" ∨
                  dim.2 = "relative" ∧ has_column table dim.1 = true)) od.

(** The dimensions are distinct, and none is named as the calibrated
    column of a dimension. *)
Definition calib_names_apart (od : offset_dict) : Prop :=
  NoDup od.*1 ∧
  Forall (λ c, Forall (λ c', c ≠ calib_name c') od.*1) od.*1.

(** Offsets for the two tables of the notebook's test. *)
Definition test_delta_2 : gmap string value :=
  {[ "mass" := vnum 3; "mobility" := vnum 0 ]}.

(** Both files of a compared pair are in the list of file names. *)
Definition known_pair (filenames : list string)
    (row : (string * string) * list value) : Prop :=
  row.1.1 ∈ filenames ∧ row.1.2 ∈ filenames.

Global Instance known_pair_dec filenames row : Decision (known_pair filenames row).
Proof. unfold known_pair. apply _. Defined.

(** The coefficients from position [i] up to, and without, position [j]. *)
Definition between (i j : nat) (coef : list Qc) : list Qc :=
  take (j - i) (drop i coef).

(** The pairs of the notebook's [test_align], and a table of distances
    that names a file which is not in the list. *)
Definition test_align_deltas : deltas_table :=
  [ (("A", "B"), [vnum 1]); (("A", "C"), [vnum (-1)]); (("B", "C"), [vnum (-2)]) ].

Definition test_unknown_deltas : deltas_table :=
  [ (("A", "B"), [vnum 1]); (("A", "X"), [vnum (-1)]) ].

(** The distance that [get_probability] hands to the chi-squared
    distribution: the squared differences, each divided by the standard
    deviation of its dimension. *)
Definition scaled_square_distance (x mu sigma : list Qc) : Qc :=
  Qcsum (zip_with (λ d s, d * d / s) (zip_with Qcminus x mu) sigma).

(** The keys of a dictionary after one assignment for each key of a
    list, in the order of the list. *)
Definition dict_keys_after {K} `{EqDecision K} (keys assigned : list K)
    : list K :=
  foldl (λ ks k, if decide (k ∈ ks) then ks else ks ++ [k]) keys assigned.

(** Between two turns of the loop of [calculate_deltas], the files read
    are the files in the cache, each read once. *)
Definition cache_inv (st : deltas_state) : Prop :=
  NoDup (st_reads st) ∧
  ∀ f, f ∈ st_reads st ↔ is_Some (st_cache st !! f).

(** What [calculate_deltas] does with the files it reads: every file it
    read is the data file of a compared file, and no file is read
    twice. *)
Definition reads_of (ms_data_file : string → string)
    (combos : list (string * string)) (reads : list string) : Prop :=
  NoDup reads ∧
  ∀ f, f ∈ reads →
       ∃ combo, combo ∈ combos ∧
                (f = ms_data_file combo.1 ∨ f = ms_data_file combo.2).

(** Three data files with the same four precursors, whose retention
    times are shifted by 0, 1 and 3, and stand-ins for what is taken as
    given in [calculate_deltas]. *)
Definition test_raw_table (shift : Z) : DataFrame :=
  mkDataFrame ["A"; "B"; "C"; "D"]
    {[ "mz" := vnum <$> [500; 600; 700; 800]%Z;
       "rt" := (λ z, vnum (z + shift)) <$> [10; 20; 30; 40]%Z ]}.

Definition test_read (filename : string) : result DataFrame :=
  if decide (filename = "a.ms_data.hdf") then Ok (test_raw_table 0)
  else if decide (filename = "b.ms_data.hdf") then Ok (test_raw_table 1)
  else if decide (filename = "c.ms_data.hdf") then Ok (test_raw_table 3)
  else Raise (KeyError filename).

Definition test_ms_data_file (filename : string) : string :=
  filename +:+ ".ms_data.hdf".

Definition test_raw_columns (df : DataFrame) : list string :=
  "precursor" :: (map_to_list (df_columns df)).*1.

Definition test_drop (df : DataFrame) (columns : list string)
    : result DataFrame :=
  Ok (mkDataFrame (df_index df)
        (filter (λ kv, kv.1 ∉ columns) (df_columns df))).

(** Pairs of which one is given twice. *)
Definition test_combos : list (string * string) :=
  [("a", "b"); ("a", "c"); ("a", "b")].

(** * Properties *)

(** Closed goals on decidable propositions, settled by evaluation. *)
Ltac by_computation :=
  match goal with
  | |- ?P => apply (bool_decide_unpack P); vm_compute; exact I
  end.

(** ** The order on values *)

Global Instance vle_refl : Reflexive vle.
Proof. intros [| | |x]; simpl; done. Qed.

Global Instance vle_trans : Transitive vle.
Proof.
  intros [| | |x] [| | |y] [| | |z]; simpl; try done.
  apply Qcle_trans.
Qed.

Global Instance vle_antisymm : AntiSymm (=) vle.
Proof.
  intros [| | |x] [| | |y]; simpl; try done.
  intros H1 H2. f_equal. by apply Qcle_antisym.
Qed.

Global Instance vle_total : Total vle.
Proof.
  intros [| | |x] [| | |y]; simpl; auto.
  destruct (Qclt_le_dec x y); auto using Qclt_le_weak.
Qed.

(** ** Arithmetic on finite values *)

Lemma vnum_0 : vnum 0 = Num 0.
Proof. unfold vnum. by rewrite Z2Qc_inj_0. Qed.

Lemma vnum_1 : vnum 1 = Num 1.
Proof. unfold vnum. by rewrite Z2Qc_inj_1. Qed.

Lemma vsub_Num x y : vsub (Num x) (Num y) = Num (x - y).
Proof. done. Qed.

Lemma vsub_diag_Num x : vsub (Num x) (Num x) = Num 0.
Proof. rewrite vsub_Num. f_equal. ring. Qed.

Lemma veqb_true a b : veqb a b = true ↔ a = b ∧ a ≠ NaN.
Proof.
  destruct a, b; simpl; rewrite ?bool_decide_eq_true;
    (split; [intros ?; by split | by intros [? ?]]).
Qed.

Lemma foldl_vadd_Num (qs : list Qc) (acc : Qc) :
  foldl vadd (Num acc) (Num <$> qs) = Num (foldl Qcplus acc qs).
Proof. revert acc. induction qs as [|q qs IH]; intros acc; simpl; [done|]. apply IH. Qed.

Lemma foldl_Qcplus_acc (qs : list Qc) (acc : Qc) :
  foldl Qcplus acc qs = acc + foldl Qcplus 0 qs.
Proof.
  revert acc. induction qs as [|q qs IH]; intros acc; simpl.
  - ring.
  - rewrite IH, (IH (0 + q)). ring.
Qed.

Lemma Qcsum_cons q qs : Qcsum (q :: qs) = q + Qcsum qs.
Proof. unfold Qcsum. simpl. rewrite foldl_Qcplus_acc. ring. Qed.

Lemma vsum_Num (qs : list Qc) : vsum (Num <$> qs) = Num (Qcsum qs).
Proof. unfold vsum. rewrite vnum_0. apply foldl_vadd_Num. Qed.

Lemma dropna_Num (qs : list Qc) : dropna (Num <$> qs) = Num <$> qs.
Proof.
  unfold dropna. induction qs as [|q qs IH]; [done|].
  rewrite fmap_cons, filter_cons_True by done. by rewrite IH.
Qed.

(** Every finite array is the image of an array of rationals. *)
Lemma finite_values (a : list value) :
  Forall (λ v, isfinite v = true) a → ∃ qs, a = Num <$> qs.
Proof.
  induction 1 as [|v a Hv _ [qs ->]].
  - by exists [].
  - destruct v as [| | |q]; try done. by exists (q :: qs).
Qed.

(** ** Reference builder: decoy and target flags *)

Global Instance Num_inj : Inj (=) (=) Num.
Proof.
  intros x y H.
  exact (f_equal (λ v, match v with Num q => q | _ => x end) H).
Qed.








(** ** Reference builder: the precursors of the reference *)

Lemma dom_groupby_precursor {A} (f : list peptide → A) (xx : list peptide) :
  dom (groupby_precursor f xx) = list_to_set (pep_precursor <$> xx).
Proof.
  unfold groupby_precursor. rewrite dom_list_to_map_L. f_equal.
  rewrite <-list_fmap_compose. by apply list_fmap_ext.
Qed.

Lemma runs_observing_pos (xx : list peptide) (k : string) :
  (1 ≤ runs_observing xx k)%nat ↔ k ∈ pep_precursor <$> xx.
Proof.
  unfold runs_observing, group_rows. rewrite list_elem_of_fmap. split.
  - intros H.
    assert (Hne : list_to_set (pep_shortname <$> filter (λ r, pep_precursor r = k) xx)
                  ≢@{gset string} ∅).
    { intros He. apply size_empty_iff in He. lia. }
    apply set_choose in Hne as [n Hn].
    apply elem_of_list_to_set, list_elem_of_fmap in Hn as (r & _ & Hr).
    apply list_elem_of_filter in Hr as [Hk Hr]. by exists r.
  - intros (r & -> & Hr).
    assert (Hin : pep_shortname r ∈@{gset string}
              list_to_set (pep_shortname <$> filter (λ r', pep_precursor r' = pep_precursor r) xx)).
    { apply elem_of_list_to_set, list_elem_of_fmap. exists r. split; [done|].
      by apply list_elem_of_filter. }
    set (X := list_to_set _) in *.
    assert (size X ≠ 0%nat); [|lia].
    apply size_non_empty_iff. intros He. apply He in Hin.
    by apply not_elem_of_empty in Hin.
Qed.

(** Three runs in one matching group; precursor P was identified in two
    of them only, and the reference still holds it and offers it for
    transfer to the third run. *)
Lemma reference_holds_precursor_of_two_runs :
  ∃ grouped,
    group_reference false c3_settings c3_pooled 0 = Some grouped ∧
    "P" ∈ dom grouped ∧
    "P" ∈ matching_set grouped ["Q"] ∧
    runs_observing (pooled_rows c3_settings c3_pooled 0) "P" = 2%nat.
Proof.
  eexists. split; [reflexivity|].
  split; [by vm_compute|]. split; [|by vm_compute].
  unfold matching_set. apply elem_of_elements. by vm_compute.
Qed.

(** C3. A matching group gets a reference only when at least
    three runs lie within the tolerance of the group, and the reference
    then holds every precursor of the pooled rows of those runs, that is
    every precursor observed in at least one of them. *)
Theorem group_reference_keys (use_mobility : bool) (s : settings)
    (x : list peptide) (group : Z) :
  match group_reference use_mobility s x group with
  | Some grouped =>
      (3 ≤ length (files_from s group))%nat ∧
      ∀ k, k ∈ dom grouped ↔ (1 ≤ runs_observing (pooled_rows s x group) k)%nat
  | None => (length (files_from s group) < 3)%nat
  end.
Proof.
  unfold group_reference. destruct (decide _) as [H|H]; [|lia].
  split; [lia|]. intros k. unfold build_reference.
  rewrite dom_groupby_precursor, elem_of_list_to_set.
  symmetry. apply runs_observing_pos.
Qed.

(** ** Merging matches into the identifications *)

Lemma tb_select_lookup (t : Table) (cols : gset string) (c : string) :
  tb_columns (tb_select t cols) !! c
  = if decide (c ∈ cols) then tb_columns t !! c else None.
Proof.
  unfold tb_select. simpl. rewrite map_lookup_filter.
  destruct (tb_columns t !! c) as [cs|]; simpl.
  - destruct (decide (c ∈ cols)) as [Hin|Hout].
    + by rewrite option_guard_True.
    + by rewrite option_guard_False.
  - by destruct (decide _).
Qed.

Lemma tb_concat_lookup (a b : Table) (c : string) (cs : list cell) :
  tb_columns a !! c = Some cs →
  tb_columns (tb_concat a b) !! c
  = Some (cs ++ default (replicate (tb_len b) (CNum NaN)) (tb_columns b !! c)).
Proof.
  intros Ha. unfold tb_concat. simpl. rewrite lookup_merge, Ha.
  by destruct (tb_columns b !! c).
Qed.

Lemma tb_concat_columns (a b : Table) (c : string) :
  is_Some (tb_columns (tb_concat a b) !! c)
  ↔ is_Some (tb_columns a !! c) ∨ is_Some (tb_columns b !! c).
Proof.
  unfold tb_concat. simpl. rewrite lookup_merge.
  destruct (tb_columns a !! c), (tb_columns b !! c); simpl;
    (split; [intros ?; (by left) || (by right) | intros [?|?]; done]).
Qed.

(** C10. The table written back after matching starts with the rows of
    the identification table as they were: every column of that table
    other than [type] and [matching_p] keeps its cells, in order, at the
    first positions; on those rows [type] is [msms] and [matching_p] is
    NaN; no column is lost or added besides these two; and the rows of
    the matches come after them. *)
Theorem merge_matches_appends (df matched : Table) :
  let out := merge_matches df matched in
  tb_len out = (tb_len df + tb_len matched)%nat ∧
  (∀ c cs, c ≠ "type" → c ≠ "matching_p" →
     tb_columns df !! c = Some cs →
     tb_columns out !! c = Some (cs ++ appended matched c)) ∧
  tb_columns out !! "type"
    = Some (replicate (tb_len df) (CStr "msms") ++ appended matched "type") ∧
  tb_columns out !! "matching_p"
    = Some (replicate (tb_len df) (CNum NaN) ++ appended matched "matching_p") ∧
  (∀ c, is_Some (tb_columns out !! c)
        ↔ is_Some (tb_columns df !! c) ∨ c = "type" ∨ c = "matching_p").
Proof.
  intros out. subst out. unfold merge_matches.
  set (df2 := tb_assign (tb_assign df "type" (CStr "msms")) "matching_p" (CNum NaN)).
  set (shared := dom (tb_columns matched) ∩ dom (tb_columns df2)).
  assert (Hdf2 : ∀ c, tb_columns df2 !! c =
            if decide (c = "matching_p") then Some (replicate (tb_len df) (CNum NaN))
            else if decide (c = "type") then Some (replicate (tb_len df) (CStr "msms"))
            else tb_columns df !! c).
  { intros c. unfold df2, tb_assign. simpl.
    destruct (decide (c = "matching_p")) as [->|Hp].
    - by rewrite lookup_insert_eq.
    - rewrite lookup_insert_ne by done.
      destruct (decide (c = "type")) as [->|Ht].
      + by rewrite lookup_insert_eq.
      + by rewrite lookup_insert_ne. }
  assert (Hsel : ∀ c, is_Some (tb_columns df2 !! c) →
            tb_columns (tb_select matched shared) !! c = tb_columns matched !! c).
  { intros c Hc. rewrite tb_select_lookup.
    destruct (decide (c ∈ shared)) as [_|Hout]; [done|].
    destruct (tb_columns matched !! c) as [cs|] eqn:Hm; [|done].
    exfalso. apply Hout. unfold shared.
    apply elem_of_intersection. split; apply elem_of_dom; [by rewrite Hm | done]. }
  assert (Hsub : ∀ c, is_Some (tb_columns (tb_select matched shared) !! c) →
            is_Some (tb_columns df2 !! c)).
  { intros c. rewrite tb_select_lookup.
    destruct (decide (c ∈ shared)) as [Hin|_]; [|by intros [? ?]].
    intros _. apply elem_of_intersection in Hin as [_ Hin]. by apply elem_of_dom. }
  assert (Hout : ∀ c cs, tb_columns df2 !! c = Some cs →
            tb_columns (tb_concat df2 (tb_select matched shared)) !! c
            = Some (cs ++ appended matched c)).
  { intros c cs Hc. rewrite (tb_concat_lookup _ _ _ _ Hc).
    unfold appended. by rewrite Hsel by (by rewrite Hc). }
  split; [done|]. split; [|split; [|split]].
  - intros c cs Ht Hp Hc. apply Hout. rewrite Hdf2.
    by rewrite !decide_False by done.
  - apply Hout. by rewrite Hdf2.
  - apply Hout. by rewrite Hdf2.
  - intros c. rewrite tb_concat_columns. split.
    + intros [Hc|Hc%Hsub]; revert Hc; rewrite Hdf2;
        repeat case_decide; auto.
    + intros H. left. rewrite Hdf2. repeat case_decide; try done.
      by destruct H as [?|[?|?]].
Qed.

(** ** Global aligner: dropped rows and the low-overlap record *)

Lemma mask_cons {A} (x : A) (a : list A) (b : bool) (m : list bool) :
  mask (x :: a) (b :: m) = if b then x :: mask a m else mask a m.
Proof.
  unfold mask. simpl. destruct b.
  - by rewrite filter_cons_True.
  - by rewrite filter_cons_False.
Qed.

(** The rows handed to the regression are the rows of [deltas] without
    NaN, in their order. *)
Lemma valid_comparisons_spec (deltas : deltas_table) :
  valid_comparisons deltas
  = filter (λ row, Forall (λ v, v ≠ NaN) row) (deltas.*2).
Proof.
  unfold valid_comparisons, not_nan_mask.
  induction deltas as [|[pair row] deltas IH]; [done|].
  rewrite !fmap_cons, mask_cons, IH. simpl.
  destruct (decide (Forall (λ v, v ≠ NaN) row)) as [H|H].
  - by rewrite bool_decide_eq_true_2, filter_cons_True.
  - by rewrite bool_decide_eq_false_2, filter_cons_False.
Qed.

Section aligner_facts.
Context {regressor : Type}.
Variable fit :
  option Z → matrix → matrix → option (list value) → result regressor.
Variable score : regressor → matrix → matrix → value.
Variable predict : regressor → matrix → matrix.

(** What the code does: the record is logged when the table of
    distances, rows with NaN included, has fewer rows than there are
    unknowns. *)
Lemma align_low_overlap_only_if deltas filenames weights n_jobs :
  LowOverlap ∈ (align fit score predict deltas filenames weights n_jobs).1
  → (length deltas < length filenames - 1)%nat.
Proof.
  unfold align. destruct (align_matrix filenames deltas) as [m|e]; simpl.
  2:{ by intros ?%elem_of_nil. }
  destruct deltas as [|d deltas]; simpl; [by intros ?%elem_of_nil|].
  match goal with |- context [decide (?P)] => destruct (decide P) as [Hlt|Hge] end;
    [done|].
  intros Hin. exfalso.
  repeat match goal with
  | H : context [match ?x with _ => _ end] |- _ => destruct x; simpl in H
  end;
  repeat (apply elem_of_cons in Hin as [Hin|Hin]; [done|]);
  by apply elem_of_nil in Hin.
Qed.

Lemma align_low_overlap_if deltas filenames weights n_jobs m :
  align_matrix filenames deltas = Ok m →
  (length deltas < length filenames - 1)%nat → deltas ≠ [] →
  LowOverlap ∈ (align fit score predict deltas filenames weights n_jobs).1.
Proof.
  intros Hm Hlt Hne. unfold align. rewrite Hm.
  destruct deltas as [|d deltas]; [done|].
  rewrite decide_True by done.
  destruct weights as [w|]; [destruct (decide _)|];
    try destruct (fit _ _ _ _); simpl; apply elem_of_cons; by left.
Qed.

(** When [align] returns, the regression was fitted on the rows of the
    design matrix and of the distances that hold no NaN, and the result
    is its prediction at the unit vectors. *)
Lemma align_fits_valid_rows deltas filenames weights n_jobs log x :
  align fit score predict deltas filenames weights n_jobs = (log, Ok x) →
  ∃ m reg,
    align_matrix filenames deltas = Ok m ∧
    fit n_jobs (mask m (not_nan_mask deltas)) (valid_comparisons deltas)
        ((λ w, mask w (not_nan_mask deltas)) <$> weights) = Ok reg ∧
    x = predict reg (eye (length filenames - 1)).
Proof.
  unfold align, valid_comparisons.
  destruct (align_matrix filenames deltas) as [m|e]; [|done].
  destruct deltas as [|d deltas]; [done|].
  destruct weights as [w|]; simpl.
  - destruct (decide _); [|done].
    destruct (fit _ _ _ _) as [reg|err] eqn:Hfit; [|done].
    intros [= _ <-]. by exists m, reg.
  - destruct (fit _ _ _ _) as [reg|err] eqn:Hfit; [|done].
    intros [= _ <-]. by exists m, reg.
Qed.

(** C7. Three runs, of which only the pair (B, C) shares precursors:
    one valid comparison is left for two unknowns, the regression is
    run on that single row, and no low-overlap record is logged. *)
Theorem align_misses_low_overlap weights n_jobs :
  valid_comparisons c7_deltas = [[vnum 1]] ∧
  (length (valid_comparisons c7_deltas) < length c7_filenames - 1)%nat ∧
  LowOverlap ∉ (align fit score predict c7_deltas c7_filenames weights n_jobs).1.
Proof.
  split; [by vm_compute|]. split; [vm_compute; lia|].
  intros Hin%align_low_overlap_only_if. vm_compute in Hin. lia.
Qed.
End aligner_facts.

(** ** Distance estimator *)

(** *** The median does not depend on the order of its input *)

Lemma dropna_Permutation (a b : list value) : a ≡ₚ b → dropna a ≡ₚ dropna b.
Proof. intros H. unfold dropna. by rewrite H. Qed.

Lemma nanmedian_Permutation (a b : list value) :
  a ≡ₚ b → nanmedian a = nanmedian b.
Proof.
  intros H. unfold nanmedian. f_equal.
  apply (Sorted_unique vle).
  - apply (Sorted_merge_sort vle).
  - apply (Sorted_merge_sort vle).
  - rewrite !merge_sort_Permutation. by apply dropna_Permutation.
Qed.

(** *** The model of [np.nanmedian] returns a median *)

Lemma Qc_midpoint (x y : Qc) :
  x ≤ y → x ≤ (x + y) / Qc_of_Z 2 ∧ (x + y) / Qc_of_Z 2 ≤ y.
Proof.
  intros Hxy.
  assert (H2 : 0 < Qc_of_Z 2) by done.
  assert (Hne : Qc_of_Z 2 ≠ 0) by done.
  split; apply (Qcmult_lt_0_le_reg_r _ _ (Qc_of_Z 2) H2).
  - replace ((x + y) / Qc_of_Z 2 * Qc_of_Z 2) with (x + y) by (by field).
    replace (x * Qc_of_Z 2) with (x + x) by (rewrite Z2Qc_inj_2; ring).
    by apply Qcplus_le_mono_l.
  - replace ((x + y) / Qc_of_Z 2 * Qc_of_Z 2) with (x + y) by (by field).
    replace (y * Qc_of_Z 2) with (y + y) by (rewrite Z2Qc_inj_2; ring).
    by apply Qcplus_le_mono_r.
Qed.

Lemma sorted_lookup_le (xs : list value) (i j : nat) (a b : value) :
  StronglySorted vle xs → (i ≤ j)%nat →
  xs !! i = Some a → xs !! j = Some b → vle a b.
Proof.
  intros Hs. revert i j. induction Hs as [|x xs Hs IH Hall]; intros i j Hij Ha Hb.
  - by rewrite lookup_nil in Ha.
  - destruct i as [|i], j as [|j]; simplify_eq/=; try lia.
    + done.
    + rewrite Forall_forall in Hall. by eapply Hall, list_elem_of_lookup_2.
    + eapply IH; [|done..]. lia.
Qed.

Lemma filter_all {A} (P : A → Prop) `{!∀ x, Decision (P x)} (l : list A) :
  Forall P l → filter P l = l.
Proof.
  induction 1 as [|x l Hx _ IH]; [done|]. by rewrite filter_cons_True, IH.
Qed.

Lemma filter_length_prefix {A} (P : A → Prop) `{!∀ x, Decision (P x)}
    (l : list A) (c : nat) :
  (∀ i e, (i < c)%nat → l !! i = Some e → P e) → (c ≤ length l)%nat →
  (c ≤ length (filter P l))%nat.
Proof.
  intros HP Hc. rewrite <-(take_drop c l), filter_app, length_app.
  rewrite (filter_all P (take c l)).
  - rewrite length_take. lia.
  - apply Forall_lookup. intros i e Hi.
    apply lookup_take_Some in Hi as [Hi Hlt]. by eapply HP.
Qed.

Lemma filter_length_suffix {A} (P : A → Prop) `{!∀ x, Decision (P x)}
    (l : list A) (c : nat) :
  (∀ i e, (c ≤ i)%nat → l !! i = Some e → P e) →
  (length l - c ≤ length (filter P l))%nat.
Proof.
  intros HP. rewrite <-(take_drop c l) at 2. rewrite filter_app, length_app.
  rewrite (filter_all P (drop c l)).
  - rewrite length_drop. lia.
  - apply Forall_lookup. intros i e Hi.
    rewrite lookup_drop in Hi. eapply HP; [|done]. lia.
Qed.

(** On a non-empty array of finite values, [nanmedian] returns a finite
    value that at least half of the entries do not exceed, and that does
    not exceed at least half of the entries. *)
Lemma nanmedian_is_median (qs : list Qc) :
  qs ≠ [] →
  ∃ m, nanmedian (Num <$> qs) = Num m ∧
       (length qs ≤ 2 * length (filter (λ q, Qcle q m) qs))%nat ∧
       (length qs ≤ 2 * length (filter (λ q, Qcle m q) qs))%nat.
Proof.
  intros Hne. unfold nanmedian. rewrite dropna_Num.
  set (xs := merge_sort vle (Num <$> qs)).
  assert (Hperm : xs ≡ₚ Num <$> qs) by apply merge_sort_Permutation.
  assert (Hsorted : StronglySorted vle xs).
  { apply Sorted_StronglySorted; [apply _|]. apply Sorted_merge_sort, _. }
  destruct (Permutation_map_inv Num qs Hperm) as (ys & Hys & Hpq).
  symmetry in Hpq. change (map Num ys) with (Num <$> ys) in Hys.
  clearbody xs. subst xs.
  assert (Hlen : length ys = length qs) by (by apply Permutation_length).
  assert (Hpos : (0 < length ys)%nat).
  { rewrite Hlen. destruct qs; [done|simpl; lia]. }
  assert (Hle : ∀ i j a b, (i ≤ j)%nat → ys !! i = Some a → ys !! j = Some b → a ≤ b).
  { intros i j a b Hij Ha Hb.
    apply (sorted_lookup_le (Num <$> ys) i j (Num a) (Num b) Hsorted Hij);
      by rewrite list_lookup_fmap, ?Ha, ?Hb. }
  set (n := length ys) in *.
  pose proof (Nat.div_mod_eq n 2) as Hdm.
  pose proof (Nat.mod_upper_bound n 2 ltac:(lia)) as Hmod.
  unfold median_sorted. rewrite length_fmap. fold n.
  rewrite decide_False by lia.
  destruct (Nat.odd n) eqn:Hodd.
  - apply Nat.odd_spec in Hodd as [k Hk].
    assert (Hk2 : (n / 2 = k)%nat) by lia.
    destruct (lookup_lt_is_Some_2 ys (n / 2)%nat) as [m Hm]; [fold n; lia|].
    exists m. split.
    { apply list_lookup_total_correct. by rewrite list_lookup_fmap, Hm. }
    rewrite <-!Hpq. fold n. split.
    + assert (S k ≤ length (filter (λ q, Qcle q m) ys))%nat; [|lia].
      apply filter_length_prefix; [|fold n; lia].
      intros i e Hi He. eapply (Hle i (n / 2)%nat); [lia|done..].
    + assert (n - k ≤ length (filter (λ q, Qcle m q) ys))%nat; [|lia].
      apply filter_length_suffix.
      intros i e Hi He. eapply (Hle (n / 2)%nat i); [lia|done..].
  - assert (Heven : (n mod 2 = 0)%nat).
    { destruct (Nat.eq_dec (n mod 2) 0%nat) as [|Hm1]; [done|].
      assert (Nat.odd n = true); [|congruence].
      apply Nat.odd_spec. exists (n / 2)%nat. lia. }
    destruct (lookup_lt_is_Some_2 ys (n / 2 - 1)%nat) as [a Ha]; [fold n; lia|].
    destruct (lookup_lt_is_Some_2 ys (n / 2)%nat) as [b Hb]; [fold n; lia|].
    assert (Hab : a ≤ b) by (eapply (Hle (n / 2 - 1)%nat (n / 2)%nat); [lia|done..]).
    destruct (Qc_midpoint a b Hab) as [Hlo Hhi].
    exists ((a + b) / Qc_of_Z 2). split.
    { rewrite !list_lookup_total_alt, !list_lookup_fmap, Ha, Hb. simpl.
      done. }
    rewrite <-!Hpq. fold n. split.
    + assert (n / 2 ≤ length (filter (λ q, Qcle q ((a + b) / Qc_of_Z 2)) ys))%nat; [|lia].
      apply filter_length_prefix; [|fold n; lia].
      intros i e Hi He. eapply Qcle_trans; [|exact Hlo].
      eapply (Hle i (n / 2 - 1)%nat); [lia|done..].
    + assert (n - n / 2 ≤ length (filter (λ q, Qcle ((a + b) / Qc_of_Z 2) q) ys))%nat; [|lia].
      apply filter_length_suffix.
      intros i e Hi He. eapply Qcle_trans; [exact Hhi|].
      eapply (Hle (n / 2)%nat i); [lia|done..].
Qed.

(** *** Rows looked up by label *)

Lemma positions_S (k : string) (idx : list string) (n : nat) :
  positions k idx (S n) = S <$> positions k idx n.
Proof.
  revert n. induction idx as [|x idx IH]; intros n; simpl; [done|].
  destruct (decide (x = k)); simpl; by rewrite IH.
Qed.

Lemma positions_not_in (k : string) (idx : list string) (n : nat) :
  k ∉ idx → positions k idx n = [].
Proof.
  revert n. induction idx as [|x idx IH]; intros n Hk; simpl; [done|].
  apply not_elem_of_cons in Hk as [Hne Hk].
  rewrite decide_False by done. by apply IH.
Qed.

Lemma positions_NoDup (k : string) (idx : list string) :
  NoDup idx → k ∈ idx → positions k idx 0 = [position idx k].
Proof.
  unfold position. induction 1 as [|x idx Hx Hnd IH]; intros Hk.
  - by apply elem_of_nil in Hk.
  - simpl. destruct (decide (x = k)) as [->|Hne]; simpl.
    + by rewrite positions_not_in.
    + apply elem_of_cons in Hk as [?|Hk]; [done|].
      rewrite positions_S, IH by done.
      apply list_elem_of_lookup in Hk as [i Hi].
      destruct (list_find (λ y, y = k) idx) as [[j y]|] eqn:Hf; [done|].
      exfalso. eapply list_find_None in Hf.
      rewrite Forall_forall in Hf. apply (Hf k); [|done].
      by eapply list_elem_of_lookup_2.
Qed.

Lemma loc_positions_NoDup (idx keys : list string) :
  NoDup idx → (∀ k, k ∈ keys → k ∈ idx) →
  loc_positions idx keys = Ok (position idx <$> keys).
Proof.
  intros Hnd. induction keys as [|k keys IH]; intros Hin; [done|].
  simpl. rewrite positions_NoDup by (done || apply Hin; left).
  rewrite IH by (intros; apply Hin; by right). done.
Qed.

Lemma list_find_eq_is_Some (idx : list string) (k : string) :
  k ∈ idx → is_Some (list_find (λ x, x = k) idx).
Proof. intros Hk. by eapply list_find_elem_of. Qed.

Lemma take_rows_column (t : DataFrame) (c : string) (vs : list value)
    (keys : list string) :
  df_columns t !! c = Some vs → (∀ k, k ∈ keys → k ∈ df_index t) →
  take_rows vs (position (df_index t) <$> keys) = column_values t c keys.
Proof.
  intros Hc Hin. unfold take_rows, column_values.
  rewrite <-list_fmap_compose. apply list_fmap_ext. intros i k Hk. simpl.
  unfold value_at, position. rewrite Hc.
  destruct (list_find_eq_is_Some (df_index t) k) as [[j y] ->]; [|done].
  apply Hin. by eapply list_elem_of_lookup_2.
Qed.

(** [table.loc[keys]] on a table with distinct labels, for keys that are
    all labels of the table. *)
Lemma getcol_loc (t : DataFrame) (keys : list string) :
  NoDup (df_index t) → (∀ k, k ∈ keys → k ∈ df_index t) →
  ∃ t_, loc t keys = Ok t_ ∧
        ∀ c, getcol t_ c =
             match df_columns t !! c with
             | Some _ => Ok (column_values t c keys)
             | None => Raise (KeyError c)
             end.
Proof.
  intros Hnd Hin. unfold loc. rewrite loc_positions_NoDup by done.
  eexists. split; [reflexivity|]. intros c'. unfold getcol. simpl.
  rewrite lookup_fmap. destruct (df_columns t !! c') as [vs|] eqn:Hc; simpl; [|done].
  by erewrite take_rows_column.
Qed.

Lemma zip_with_fmap_same {A B C D} (f : B → C → D) (g : A → B) (h : A → C)
    (l : list A) :
  zip_with f (g <$> l) (h <$> l) = (λ x, f (g x) (h x)) <$> l.
Proof. induction l as [|x l IH]; csimpl; [done|]. by rewrite IH. Qed.

Lemma broadcast2_same_length (f : value → value → value) (a b : list value) :
  length a = length b → broadcast2 f a b = Ok (zip_with f a b).
Proof. intros H. unfold broadcast2. by rewrite decide_True. Qed.

Lemma broadcast2_fmap {A} (f : value → value → value) (g h : A → value)
    (l : list A) :
  broadcast2 f (g <$> l) (h <$> l) = Ok ((λ x, f (g x) (h x)) <$> l).
Proof.
  rewrite broadcast2_same_length by (by rewrite !length_fmap).
  f_equal. apply zip_with_fmap_same.
Qed.

(** *** The two ways of writing the relative difference *)

Lemma Qcsgn_double (x : Qc) : Qcsgn (Qc_of_Z 2 * x) = Qcsgn x.
Proof.
  unfold Qcsgn.
  assert (H2 : 0 < Qc_of_Z 2) by done.
  destruct (Qc_dec x 0) as [[Hlt|Hgt]| ->].
  - rewrite (proj1 (Qclt_alt x 0) Hlt). apply Qclt_alt.
    rewrite <-(Qcmult_0_l (Qc_of_Z 2)), (Qcmult_comm _ x).
    by apply Qcmult_lt_compat_r.
  - rewrite (proj1 (Qcgt_alt x 0) Hgt). apply Qcgt_alt.
    rewrite <-(Qcmult_0_l (Qc_of_Z 2)), (Qcmult_comm _ x).
    by apply Qcmult_lt_compat_r.
  - by rewrite Qcmult_0_r.
Qed.

Lemma vmul_vdiv_2 (x y : value) :
  vmul (vdiv x y) (vnum 2) = vdiv (vmul (vnum 2) x) y.
Proof.
  unfold vnum.
  destruct x as [| | |a], y as [| | |b]; simpl; try done;
    try (by destruct (Qcsgn b)); try (f_equal; ring).
  destruct (decide (b = 0)) as [->|Hb].
  - rewrite Qcsgn_double. by destruct (Qcsgn a).
  - simpl. f_equal. field. done.
Qed.

(** *** The distances are the medians of the paired differences *)

Lemma has_column_true (t : DataFrame) (c : string) :
  has_column t c = true ↔ is_Some (df_columns t !! c).
Proof. unfold has_column. apply bool_decide_eq_true. Qed.

Lemma reads_as_has_column (t_ t : DataFrame) (keys : list string) (c : string) :
  reads_as t_ t keys → has_column t c = true →
  getcol t_ c = Ok (column_values t c keys).
Proof.
  intros Hr [vs Hc]%has_column_true. by rewrite Hr, Hc.
Qed.

Lemma calculate_distance_loop_ok (t1 t2 t1_ t2_ : DataFrame)
    (keys : list string) (od : offset_dict) (calib : bool) :
  reads_as t1_ t1 keys → reads_as t2_ t2 keys →
  dims_available t1 t2 od calib →
  calculate_distance_loop t1_ t2_ od calib
  = Ok ((λ dim, nanmedian (paired_differences t1 t2 calib keys dim)) <$> od).
Proof.
  intros H1 H2. induction 1 as [|[col mode] od (Hm & Hc1 & Hc2) _ IH]; [done|].
  cbn [calculate_distance_loop]. rewrite IH. clear IH.
  fold (distance_column calib col).
  simpl in Hm, Hc1, Hc2.
  rewrite (reads_as_has_column _ _ _ _ H1 Hc1), (reads_as_has_column _ _ _ _ H2 Hc2).
  unfold paired_differences, spec_difference, column_values. simpl.
  destruct Hm as [-> | ->].
  - rewrite decide_True by done. simpl.
    unfold _calculate_deltas_abs. rewrite broadcast2_fmap. done.
  - rewrite decide_False by done. rewrite decide_True by done. simpl.
    unfold _calculate_deltas_rel. rewrite !broadcast2_fmap. simpl.
    rewrite broadcast2_fmap. simpl.
    rewrite <-list_fmap_compose.
    do 3 f_equal. apply list_fmap_ext. intros i k _. simpl.
    apply vmul_vdiv_2.
Qed.

Lemma shared_precursors_elem_of (t1 t2 : DataFrame) (k : string) :
  k ∈ shared_precursors t1 t2 ↔ k ∈ df_index t1 ∧ k ∈ df_index t2.
Proof.
  unfold shared_precursors, index_set.
  by rewrite elem_of_elements, elem_of_intersection, !elem_of_list_to_set.
Qed.

Lemma calculate_distance_on_medians (table_1 table_2 : DataFrame)
    (od : offset_dict) (calib : bool) (shared : list string) :
  NoDup (df_index table_1) → NoDup (df_index table_2) →
  dims_available table_1 table_2 od calib →
  shared ≡ₚ shared_precursors table_1 table_2 →
  calculate_distance_on shared table_1 table_2 od calib
  = Ok (spec_distance table_1 table_2 calib <$> od,
        size (index_set table_1 ∩ index_set table_2)).
Proof.
  intros Hnd1 Hnd2 Hdims Hperm.
  assert (Hin : ∀ k, k ∈ shared → k ∈ df_index table_1 ∧ k ∈ df_index table_2).
  { intros k Hk. apply shared_precursors_elem_of. by rewrite <-Hperm. }
  unfold calculate_distance_on.
  destruct (getcol_loc table_1 shared Hnd1) as (t1_ & -> & Hr1);
    [intros k Hk; by apply Hin|].
  destruct (getcol_loc table_2 shared Hnd2) as (t2_ & -> & Hr2);
    [intros k Hk; by apply Hin|].
  simpl.
  rewrite (calculate_distance_loop_ok table_1 table_2 t1_ t2_ shared od calib)
    by done.
  simpl. do 2 f_equal.
  - apply list_fmap_ext. intros i dim _. unfold spec_distance.
    apply nanmedian_Permutation. unfold paired_differences. by rewrite Hperm.
  - rewrite Hperm. unfold shared_precursors. done.
Qed.

(** C1. For two tables with distinct row labels that hold the column of
    every dimension, and a mapping whose modes are all supported:
    whatever the order in which the shared precursors are listed,
    [calculate_distance] returns one value for each dimension, in the
    order of the mapping, and the number of shared precursors.  The value
    of a dimension is the median, over the precursors that label a row
    in both tables, of [v1 - v2] in absolute mode and of
    [2 * (v1 - v2) / (v1 + v2)] in relative mode (a difference that is
    NaN is left out of the median, as [np.nanmedian] does). *)
Theorem calculate_distance_medians (table_1 table_2 : DataFrame)
    (od : offset_dict) (calib : bool) (shared : list string) :
  NoDup (df_index table_1) → NoDup (df_index table_2) →
  dims_available table_1 table_2 od calib →
  shared ≡ₚ shared_precursors table_1 table_2 →
  let expected := (spec_distance table_1 table_2 calib <$> od,
                   size (index_set table_1 ∩ index_set table_2)) in
  calculate_distance table_1 table_2 od calib = Ok expected ∧
  calculate_distance_on shared table_1 table_2 od calib = Ok expected ∧
  length expected.1 = length od.
Proof.
  intros Hnd1 Hnd2 Hdims Hperm expected. subst expected.
  split; [|split].
  - by apply calculate_distance_on_medians.
  - by apply calculate_distance_on_medians.
  - simpl. by rewrite length_fmap.
Qed.

(** *** A table compared with itself *)

Lemma position_lookup (idx : list string) (i : nat) (k : string) :
  NoDup idx → idx !! i = Some k → position idx k = i.
Proof.
  intros Hnd Hi. unfold position.
  destruct (list_find (λ x, x = k) idx) as [[j y]|] eqn:Hf; simpl.
  - apply list_find_Some in Hf as (Hj & -> & _).
    by eapply NoDup_lookup.
  - exfalso. apply list_find_None in Hf. rewrite Forall_forall in Hf.
    apply (Hf k); [by eapply list_elem_of_lookup_2 | done].
Qed.

Lemma column_values_index (t : DataFrame) (c : string) (vs : list value) :
  NoDup (df_index t) → df_wf t → df_columns t !! c = Some vs →
  column_values t c (df_index t) = vs.
Proof.
  intros Hnd Hwf Hc. apply list_eq. intros i.
  unfold column_values. rewrite list_lookup_fmap.
  destruct (df_index t !! i) as [k|] eqn:Hi; simpl.
  - unfold value_at. rewrite Hc.
    destruct (list_find_eq_is_Some (df_index t) k) as [[j y] Hf];
      [by eapply list_elem_of_lookup_2|].
    rewrite Hf.
    assert (j = i) as ->.
    { apply (position_lookup _ _ _ Hnd) in Hi. unfold position in Hi.
      by rewrite Hf in Hi. }
    apply lookup_lt_Some in Hi. rewrite <-(Hwf _ _ Hc) in Hi.
    apply lookup_lt_is_Some in Hi as [v Hv].
    rewrite Hv. f_equal. by apply list_lookup_total_correct.
  - symmetry. apply lookup_ge_None. apply lookup_ge_None in Hi.
    by rewrite (Hwf _ _ Hc).
Qed.

Lemma spec_difference_self (mode : string) (v : value) :
  valid_mode mode →
  spec_difference mode v v = if usable mode v then Num 0 else NaN.
Proof.
  intros [-> | ->]; unfold spec_difference, usable.
  - rewrite decide_True by done.
    destruct v as [| | |q]; try done. apply vsub_diag_Num.
  - rewrite decide_False by done.
    destruct v as [| | |q]; try done. unfold vnum. simpl.
    destruct (decide (q = 0)) as [->|Hq].
    + rewrite bool_decide_eq_false_2 by (by intros []).
      rewrite decide_True by ring.
      replace (Qc_of_Z 2 * (0 + - 0)) with (Q2Qc 0) by ring. done.
    + rewrite bool_decide_eq_true_2 by done.
      assert (q + q ≠ 0).
      { rewrite Qcplus_diag. intros [H|H]%Qcmult_integral; [done|done]. }
      rewrite decide_False by done. f_equal. field. done.
Qed.

Lemma sorted_zeros (xs : list value) :
  Forall (λ v, v = Num 0) xs → xs = replicate (length xs) (Num 0).
Proof. induction 1 as [|v xs -> _ IH]; simpl; [done|]. by rewrite <-IH. Qed.

Lemma median_sorted_zeros (n : nat) :
  median_sorted (replicate n (Num 0)) = if decide (n = 0%nat) then NaN else Num 0.
Proof.
  unfold median_sorted. rewrite length_replicate.
  destruct (decide (n = 0%nat)) as [->|Hn]; [done|].
  assert (Hlt : (n / 2 < n)%nat) by (apply Nat.div_lt; lia).
  destruct (Nat.odd n).
  - by rewrite list_lookup_total_alt, lookup_replicate_2.
  - rewrite !list_lookup_total_alt, !lookup_replicate_2 by lia.
    by_computation.
Qed.

(** The median of an array that only holds zeros and NaN. *)
Lemma nanmedian_zeros (a : list value) :
  Forall (λ v, v = Num 0 ∨ v = NaN) a →
  nanmedian a = if decide (Exists (λ v, v = Num 0) a) then Num 0 else NaN.
Proof.
  intros Ha. unfold nanmedian.
  assert (Hd : Forall (λ v, v = Num 0) (merge_sort vle (dropna a))).
  { rewrite merge_sort_Permutation. unfold dropna.
    apply Forall_forall. intros v [Hv Hin]%list_elem_of_filter.
    rewrite Forall_forall in Ha. by destruct (Ha v Hin). }
  rewrite (sorted_zeros _ Hd), median_sorted_zeros.
  assert (Hlen : length (merge_sort vle (dropna a)) = length (dropna a)).
  { apply Permutation_length, merge_sort_Permutation. }
  rewrite Hlen. clear Hd Hlen.
  destruct (decide (length (dropna a) = 0%nat)) as [Hz|Hz];
    destruct (decide (Exists (λ v, v = Num 0) a)) as [He|He]; try done.
  - exfalso. apply Exists_exists in He as (v & Hin & ->).
    assert (Hd : Num 0 ∈ dropna a) by (by apply list_elem_of_filter).
    apply nil_length_inv in Hz. rewrite Hz in Hd. by apply elem_of_nil in Hd.
  - exfalso. apply He.
    destruct (dropna a) as [|v d] eqn:E; [done|].
    assert (Hv : v ∈ dropna a) by (rewrite E; left).
    apply list_elem_of_filter in Hv as [Hv Hin].
    apply Exists_exists. exists v. split; [done|].
    rewrite Forall_forall in Ha. by destruct (Ha v Hin).
Qed.

Lemma shared_precursors_self (t : DataFrame) :
  NoDup (df_index t) → shared_precursors t t ≡ₚ df_index t.
Proof.
  intros Hnd. unfold shared_precursors, index_set.
  rewrite (idemp_L (∩)). by apply elements_list_to_set.
Qed.

Lemma spec_distance_self (t : DataFrame) (calib : bool) (dim : string * string) :
  NoDup (df_index t) → df_wf t → valid_mode dim.2 →
  has_column t (distance_column calib dim.1) = true →
  spec_distance t t calib dim = self_distance t calib dim.
Proof.
  intros Hnd Hwf Hm [vs Hc]%has_column_true.
  unfold spec_distance, self_distance. rewrite Hc.
  rewrite (nanmedian_Permutation _
             ((λ v, spec_difference dim.2 v v) <$> vs)).
  2:{ rewrite (shared_precursors_self _ Hnd).
      pose proof (column_values_index t _ vs Hnd Hwf Hc) as Hv.
      unfold column_values in Hv. by rewrite <-Hv, <-list_fmap_compose. }
  rewrite nanmedian_zeros.
  2:{ apply Forall_fmap, Forall_forall. intros v _. simpl.
      rewrite spec_difference_self by done. destruct (usable _ _); auto. }
  rewrite vnum_0.
  destruct (existsb (usable dim.2) vs) eqn:E.
  - rewrite decide_True; [done|].
    apply existsb_exists in E as (v & Hin & Hu).
    apply Exists_fmap, Exists_exists. exists v. split; [by apply list_elem_of_In|].
    simpl. by rewrite spec_difference_self, Hu.
  - rewrite decide_False; [done|].
    intros (v & Hin & Hv)%Exists_fmap%Exists_exists. simpl in Hv.
    rewrite spec_difference_self in Hv by done.
    destruct (usable dim.2 v) eqn:Hu; [|done].
    assert (existsb (usable dim.2) vs = true); [|congruence].
    apply existsb_exists. exists v. split; [by apply list_elem_of_In|done].
Qed.

(** Two tables that have a value for every label, and still are not at
    distance 0 from themselves: a table without rows, and a table whose
    only value is NaN. *)
Lemma self_distance_undefined :
  calculate_distance (mkDataFrame [] {[ "mass" := [] ]})
                     (mkDataFrame [] {[ "mass" := [] ]})
                     [("mass", "absolute")] false
  = Ok ([NaN], 0%nat) ∧
  calculate_distance (mkDataFrame ["A"] {[ "mobility" := [NaN] ]})
                     (mkDataFrame ["A"] {[ "mobility" := [NaN] ]})
                     [("mobility", "relative")] false
  = Ok ([NaN], 1%nat).
Proof. split; by vm_compute. Qed.

(** C8. A table with distinct row labels compared with itself, in
    whatever order its labels are listed: the count of shared keys is the
    number of rows, and the distance of a dimension is exactly 0 as soon
    as its column holds one finite value (in relative mode: one finite
    value other than zero); it is NaN when the column holds no such
    value, as for a table without rows. *)
Theorem calculate_distance_self (table : DataFrame) (od : offset_dict)
    (calib : bool) (shared : list string) :
  NoDup (df_index table) → df_wf table →
  dims_available table table od calib →
  shared ≡ₚ df_index table →
  let expected := (self_distance table calib <$> od, length (df_index table)) in
  calculate_distance table table od calib = Ok expected ∧
  calculate_distance_on shared table table od calib = Ok expected.
Proof.
  intros Hnd Hwf Hdims Hperm expected.
  assert (Hexp : (spec_distance table table calib <$> od,
                  size (index_set table ∩ index_set table)) = expected).
  { unfold expected. f_equal.
    - apply list_fmap_ext. intros i dim Hi.
      unfold dims_available in Hdims. rewrite Forall_forall in Hdims.
      destruct (Hdims dim) as (Hm & Hc & _); [by eapply list_elem_of_lookup_2|].
      by apply spec_distance_self.
    - rewrite (idemp_L (∩)). unfold index_set. by apply size_list_to_set. }
  rewrite <-Hexp. split.
  - by apply calculate_distance_on_medians.
  - apply calculate_distance_on_medians; try done.
    by rewrite shared_precursors_self.
Qed.

(** ** Calibrator *)

Lemma has_column_setcol (t : DataFrame) (c c' : string) (vs : list value) :
  has_column t c = true → has_column (setcol t c' vs) c = true.
Proof.
  rewrite !has_column_true. unfold setcol. simpl. intros Hc.
  destruct (decide (c' = c)) as [->|Hne].
  - rewrite lookup_insert_eq. by eexists.
  - by rewrite lookup_insert_ne.
Qed.

(** Absolute mode: the source column, or the apex column when the table
    lacks it, minus the offset of the dimension. *)
Lemma calib_column_absolute (table : DataFrame) (delta : gmap string value)
    (col : string) (src : list value) (d : value) :
  df_columns table !! spec_source table col = Some src →
  delta !! col = Some d →
  calib_column table delta col "absolute"
  = Ok (setcol table (calib_name col) (spec_calibrated "absolute" d src)).
Proof.
  intros Hsrc Hd. unfold calib_column, spec_source in *.
  rewrite decide_True by done.
  destruct (has_column table col) eqn:Hc; simpl.
  - unfold getcol, getdelta. by rewrite Hsrc, Hd.
  - assert (has_column table (apex_name col) = true) as ->.
    { apply has_column_true. by rewrite Hsrc. }
    simpl. unfold getcol, getdelta. by rewrite Hsrc, Hd.
Qed.

Lemma vmul_comm (a b : value) : vmul a b = vmul b a.
Proof.
  destruct a as [| | |x], b as [| | |y]; simpl; try done.
  f_equal. ring.
Qed.

(** Relative mode, when the table has the column of the dimension: the
    column times one minus the offset. *)
Lemma calib_column_relative (table : DataFrame) (delta : gmap string value)
    (col : string) (src : list value) (d : value) :
  df_columns table !! col = Some src →
  delta !! col = Some d →
  calib_column table delta col "relative"
  = Ok (setcol table (calib_name col) (spec_calibrated "relative" d src)).
Proof.
  intros Hsrc Hd. unfold calib_column.
  rewrite decide_False by done. rewrite decide_True by done.
  assert (has_column table col = true) as ->.
  { apply has_column_true. by rewrite Hsrc. }
  simpl. unfold getcol, getdelta. rewrite Hsrc, Hd. simpl.
  unfold spec_calibrated. rewrite decide_False by done.
  do 2 f_equal. apply list_fmap_ext. intros i v _. apply vmul_comm.
Qed.

(** C2. A features table that stores the mass-to-charge ratio under its
    apex name only.  In absolute mode the apex column is calibrated; in
    relative mode the same table makes [calib_table] raise a key error,
    because the offset is looked up under the apex name and the values
    under the canonical name, and no calibrated column is written. *)
Theorem calib_table_relative_apex_fails :
  let table := mkDataFrame ["0"; "1"] {[ "mz_apex" := [vnum 500; vnum 800] ]} in
  let delta : gmap string value := {[ "mz" := vdiv (vnum 1) (vnum 1000) ]} in
  spec_source table "mz" = "mz_apex" ∧
  calib_table table delta [("mz", "absolute")]
  = (setcol table "mz_calib"
       (spec_calibrated "absolute" (vdiv (vnum 1) (vnum 1000)) [vnum 500; vnum 800]),
     None) ∧
  calib_table table delta [("mz", "relative")]
  = (table, Some (KeyError "mz_apex")).
Proof. repeat split; by_computation. Qed.

(** ** Failures that reach the caller *)

Lemma calculate_distance_loop_outcome (t1 t2 t1_ t2_ : DataFrame)
    (keys : list string) (od : offset_dict) (calib : bool) :
  reads_as t1_ t1 keys → reads_as t2_ t2 keys →
  columns_available t1 t2 od calib →
  match calculate_distance_loop t1_ t2_ od calib with
  | Ok _ => Forall (λ dim, valid_mode dim.2) od
  | Raise e => unsupported (Some e) ∧ unsupported_mode_in od
  end.
Proof.
  intros H1 H2. induction 1 as [|[col mode] od (Hc1 & Hc2) _ IH]; [by constructor|].
  cbn [calculate_distance_loop]. fold (distance_column calib col).
  simpl in Hc1, Hc2.
  rewrite (reads_as_has_column _ _ _ _ H1 Hc1), (reads_as_has_column _ _ _ _ H2 Hc2).
  unfold unsupported_mode_in in *.
  destruct (decide (mode = "absolute")) as [->|Ha].
  - simpl. unfold _calculate_deltas_abs, column_values.
    rewrite broadcast2_fmap. simpl.
    destruct (calculate_distance_loop t1_ t2_ od calib); simpl.
    + constructor; [by left | done].
    + destruct IH. split; [done | by right].
  - destruct (decide (mode = "relative")) as [->|Hr].
    + simpl. unfold _calculate_deltas_rel, column_values.
      rewrite !broadcast2_fmap. simpl. rewrite broadcast2_fmap. simpl.
      destruct (calculate_distance_loop t1_ t2_ od calib); simpl.
      * constructor; [by right | done].
      * destruct IH. split; [done | by right].
    + simpl. split; [done|]. left. simpl. by intros [?|?].
Qed.

Lemma calib_table_outcome (table : DataFrame) (delta : gmap string value)
    (od : offset_dict) :
  offsets_available table delta od →
  match (calib_table table delta od).2 with
  | None => Forall (λ dim, valid_mode dim.2) od
  | Some e => unsupported (Some e) ∧ unsupported_mode_in od
  end.
Proof.
  unfold unsupported_mode_in.
  revert table. induction od as [|[col mode] od IH]; intros table Hav;
    [by constructor|].
  apply Forall_cons in Hav as [[Hc [d Hd]] Hav]. simpl in Hc, Hd.
  apply has_column_true in Hc as Hsrc. destruct Hsrc as [src Hsrc].
  cbn [calib_table].
  assert (Hstep : ∀ vs, offsets_available (setcol table (calib_name col) vs) delta od).
  { intros vs. unfold offsets_available in *.
    eapply Forall_impl; [exact Hav|]. intros dim [? ?].
    split; [by apply has_column_setcol | done]. }
  destruct (decide (mode = "absolute")) as [->|Ha].
  - rewrite (calib_column_absolute _ _ _ src d);
      [|unfold spec_source; by rewrite Hc|done].
    specialize (IH _ (Hstep (spec_calibrated "absolute" d src))).
    destruct (calib_table _ delta od).2.
    + destruct IH. split; [done | by right].
    + constructor; [by left | done].
  - destruct (decide (mode = "relative")) as [->|Hr].
    + rewrite (calib_column_relative _ _ _ src d) by done.
      specialize (IH _ (Hstep (spec_calibrated "relative" d src))).
      destruct (calib_table _ delta od).2.
      * destruct IH. split; [done | by right].
      * constructor; [by right | done].
    + unfold calib_column. rewrite !decide_False by done. simpl.
      split; [done|]. left. simpl. by intros [?|?].
Qed.

(** A table without a mass column: a key error reaches the caller, with
    a mapping whose modes are all supported, and also with a mapping
    that has an unsupported mode further on. *)
Lemma key_error_reaches_caller :
  let t := mkDataFrame ["A"] {[ "rt" := [vnum 1] ]} in
  let delta : gmap string value := {[ "rt" := vnum 1 ]} in
  let od := [("mass", "absolute")] in
  let od' := [("mass", "absolute"); ("rt", "linear")] in
  Forall (λ dim, valid_mode dim.2) od ∧
  calculate_distance t t od false = Raise (KeyError "mass") ∧
  (calib_table t delta od).2 = Some (KeyError "mass") ∧
  unsupported_mode_in od' ∧
  calculate_distance t t od' false = Raise (KeyError "mass") ∧
  (calib_table t delta od').2 = Some (KeyError "mass").
Proof. repeat split; by_computation. Qed.

(** C6. When the tables have distinct row labels and hold the
    column of every dimension of the mapping, and the series of offsets
    holds every dimension, [calculate_distance] and [calib_table] raise
    the unsupported-mode error if and only if some mode of the mapping
    is neither absolute nor relative, and they raise nothing else. *)
Theorem unsupported_mode_only_failure (table_1 table_2 table : DataFrame)
    (delta : gmap string value) (od : offset_dict) (calib : bool) :
  NoDup (df_index table_1) → NoDup (df_index table_2) →
  columns_available table_1 table_2 od calib →
  offsets_available table delta od →
  let r := raised (calculate_distance table_1 table_2 od calib) in
  let e := (calib_table table delta od).2 in
  (unsupported r ↔ unsupported_mode_in od) ∧ (is_Some r → unsupported r) ∧
  (unsupported e ↔ unsupported_mode_in od) ∧ (is_Some e → unsupported e).
Proof.
  intros Hnd1 Hnd2 Hcols Hoff r e.
  assert (Hno : ∀ od', Forall (λ dim : string * string, valid_mode dim.2) od' →
                       ¬ unsupported_mode_in od').
  { intros od' Hall Hex. unfold unsupported_mode_in in Hex.
    apply Exists_exists in Hex as (dim & Hin & Hbad).
    rewrite Forall_forall in Hall. by apply Hbad, Hall. }
  assert (Hr : match r with
               | None => Forall (λ dim, valid_mode dim.2) od
               | Some e => unsupported (Some e) ∧ unsupported_mode_in od
               end).
  { subst r. unfold calculate_distance, calculate_distance_on.
    set (shared := shared_precursors table_1 table_2).
    destruct (getcol_loc table_1 shared Hnd1) as (t1_ & -> & Hr1);
      [intros k Hk; by apply shared_precursors_elem_of in Hk as [? ?]|].
    destruct (getcol_loc table_2 shared Hnd2) as (t2_ & -> & Hr2);
      [intros k Hk; by apply shared_precursors_elem_of in Hk as [? ?]|].
    simpl.
    pose proof (calculate_distance_loop_outcome
                  table_1 table_2 t1_ t2_ shared od calib Hr1 Hr2 Hcols) as Hl.
    by destruct (calculate_distance_loop t1_ t2_ od calib). }
  pose proof (calib_table_outcome table delta od Hoff) as He. fold e in He.
  clearbody r e.
  split; [|split; [|split]].
  - destruct r as [x|]; [by destruct Hr|].
    split; [done|]. intros Hbad. by apply Hno in Hr.
  - intros [x ->]. by destruct Hr.
  - destruct e as [x|]; [by destruct He|].
    split; [done|]. intros Hbad. by apply Hno in He.
  - intros [x ->]. by destruct He.
Qed.

(** ** Centering of the alignment *)





Lemma frame_mean_length (ncols : nat) (m : matrix) :
  length (frame_mean ncols m) = ncols.
Proof. unfold frame_mean. by rewrite length_fmap, length_seq. Qed.





Section align_datasets_facts.
Context {regressor : Type}.
Variable fit :
  option Z → matrix → matrix → option (list value) → result regressor.
Variable score : regressor → matrix → matrix → value.
Variable predict : regressor → matrix → matrix.

(** The alignment of [align_datasets] is the centered table above, built
    from what [align] returned; nothing is aligned when there are
    fewer than two files. *)
Lemma align_datasets_alignment_Some filenames deltas weights od n_processes
    log a :
  align_datasets_alignment fit score predict filenames deltas weights od
    n_processes = (log, Ok (Some a)) →
  (1 < length filenames)%nat ∧
  ∃ n_jobs x,
    align fit score predict deltas filenames (Some weights) (Some n_jobs)
      = (log, Ok x) ∧
    Forall (λ row, length row = length od) x ∧
    a = mean_center (length od) (with_reference_row (length od) x).
Proof.
  unfold align_datasets_alignment.
  destruct (decide (1 < length filenames)%nat) as [Hlen|Hlen]; [|done].
  destruct (align _ _ _ _ _ _ _) as [log' [x|e]] eqn:Hal; [|done].
  rewrite length_fmap.
  destruct (decide (Forall _ x)) as [Hw|Hw]; [|done].
  intros [= <- <-]. split; [done|]. by eexists _, x.
Qed.
End align_datasets_facts.

(** ** Match probability *)

Lemma isfinite_Num (v : value) : isfinite v = true ↔ ∃ q, v = Num q.
Proof. destruct v; simpl; split; try done; try (by intros [? ?]). by eexists. Qed.

Lemma vsum_finite (a : list value) :
  Forall (λ v, isfinite v = true) a → ∃ q, vsum a = Num q.
Proof. intros [qs ->]%finite_values. rewrite vsum_Num. by eexists. Qed.

Lemma finite_matrix_delete (m : matrix) (j : nat) :
  finite_matrix m → finite_matrix (delete j <$> m).
Proof.
  intros H. apply Forall_fmap. eapply Forall_impl; [exact H|].
  intros row Hrow. by apply Forall_delete.
Qed.

(** The determinant of a matrix of finite values is finite. *)
Lemma det_rec_finite (n : nat) (m : matrix) :
  finite_matrix m → ∃ d, det_rec n m = Num d.
Proof.
  revert m. induction n as [|n IH]; intros m Hm; [by eexists|].
  destruct m as [|row rest]; [by eexists|].
  apply Forall_cons in Hm as [Hrow Hrest]. cbn [det_rec].
  apply vsum_finite. apply Forall_lookup. intros j v.
  rewrite list_lookup_imap. intros Hv.
  apply fmap_Some in Hv as (a & Ha & ->).
  rewrite Forall_lookup in Hrow. apply Hrow, isfinite_Num in Ha as [q ->].
  destruct (IH (delete j <$> rest)) as [d ->]; [by apply finite_matrix_delete|].
  by destruct (Nat.even j).
Qed.

Lemma eye_S (n : nat) :
  eye (S n) = (vnum 1 :: replicate n (vnum 0)) :: (cons (vnum 0) <$> eye n).
Proof.
  unfold eye. change (seq 0 (S n)) with (0%nat :: seq 1 n).
  rewrite <-fmap_S_seq, !fmap_cons. f_equal.
  - f_equal. rewrite <-list_fmap_compose. apply list_eq. intros i.
    rewrite list_lookup_fmap. destruct (decide (i < n)%nat) as [Hi|Hi].
    + by rewrite lookup_seq_lt, lookup_replicate_2.
    + rewrite lookup_seq_ge by lia. symmetry. apply lookup_replicate_None. lia.
  - rewrite <-!list_fmap_compose. apply list_fmap_ext. intros i i' _. simpl.
    f_equal. rewrite <-list_fmap_compose. apply list_fmap_ext. intros k j _.
    simpl. destruct (decide (i' = j)), (decide (S i' = S j)); done || lia.
Qed.

Lemma zip_with_vmul_zeros (qs : list Qc) :
  zip_with vmul (Num <$> qs) (replicate (length qs) (vnum 0))
  = replicate (length qs) (Num 0).
Proof.
  rewrite vnum_0. induction qs as [|q qs IH]; csimpl; [done|].
  rewrite IH. do 2 f_equal. ring.
Qed.

Lemma diag_cov_cons (q : Qc) (qs : list Qc) :
  diag_cov (Num <$> (q :: qs))
  = (Num q :: replicate (length qs) (Num 0))
      :: (cons (Num 0) <$> diag_cov (Num <$> qs)).
Proof.
  unfold diag_cov. rewrite !length_fmap. simpl length. rewrite eye_S.
  rewrite !fmap_cons. f_equal.
  - cbn [zip_with]. rewrite zip_with_vmul_zeros, vnum_1. simpl.
    f_equal. f_equal. ring.
  - rewrite <-!list_fmap_compose. apply list_fmap_ext. intros i row _. simpl.
    do 2 f_equal. rewrite Z2Qc_inj_0. ring.
Qed.

Lemma diag_cov_finite (qs : list Qc) : finite_matrix (diag_cov (Num <$> qs)).
Proof.
  induction qs as [|q qs IH]; [constructor|].
  rewrite diag_cov_cons. constructor.
  - constructor; [done|]. by apply Forall_replicate.
  - apply Forall_fmap. eapply Forall_impl; [exact IH|].
    intros row Hrow. by constructor.
Qed.

Lemma Qcsum_zeros (k : nat) : Qcsum (replicate k 0) = 0.
Proof.
  induction k as [|k IH]; [done|].
  change (replicate (S k) 0) with (Q2Qc 0 :: replicate k 0).
  rewrite Qcsum_cons, IH. ring.
Qed.

(** Expansion along a first row that is zero after its first entry. *)
Lemma det_rec_first_row (n k : nat) (q : Qc) (rest : matrix) :
  finite_matrix rest →
  det_rec (S n) ((Num q :: replicate k (Num 0)) :: rest)
  = vmul (Num q) (det_rec n (delete 0%nat <$> rest)).
Proof.
  intros Hfin. cbn [det_rec]. rewrite imap_cons. cbn [Nat.even].
  destruct (det_rec_finite n (delete 0%nat <$> rest)) as [d0 Hd0];
    [by apply finite_matrix_delete|].
  rewrite Hd0.
  assert (Htail : imap ((λ j a, vmul (if Nat.even j then a else vopp a)
                                  (det_rec n (delete j <$> rest))) ∘ S)
                    (replicate k (Num 0))
                  = Num <$> replicate k 0).
  { apply list_eq. intros j. rewrite list_lookup_imap, list_lookup_fmap.
    destruct (decide (j < k)%nat) as [Hj|Hj].
    - rewrite !lookup_replicate_2 by done. simpl.
      destruct (det_rec_finite n (delete (S j) <$> rest)) as [d Hd];
        [by apply finite_matrix_delete|].
      rewrite Hd.
      destruct (match j with 0%nat => false | S n' => Nat.even n' end);
        simpl; do 2 f_equal; ring.
    - by rewrite !(proj1 (lookup_replicate_None _ _ _)) by lia. }
  rewrite Htail. simpl vmul.
  change (Num (q * d0) :: (Num <$> replicate k 0))
    with (Num <$> (q * d0 :: replicate k 0)).
  rewrite vsum_Num, Qcsum_cons, Qcsum_zeros. f_equal. ring.
Qed.

(** The determinant of a diagonal covariance is the product of the
    standard deviations. *)
Lemma det_diag_cov (qs : list Qc) :
  det (diag_cov (Num <$> qs)) = Num (Qcprod qs).
Proof.
  unfold det. induction qs as [|q qs IH]; [apply vnum_1|].
  rewrite diag_cov_cons. simpl length. rewrite length_fmap.
  rewrite det_rec_first_row.
  2:{ apply Forall_fmap. eapply Forall_impl; [apply diag_cov_finite|].
      intros row Hrow. by constructor. }
  rewrite <-list_fmap_compose.
  rewrite (list_fmap_ext _ id (diag_cov (Num <$> qs))) by done.
  rewrite list_fmap_id, IH. done.
Qed.

Lemma Qcprod_zero (qs : list Qc) : 0 ∈ qs → Qcprod qs = 0.
Proof.
  induction qs as [|q qs IH]; intros Hin; [by apply elem_of_nil in Hin|].
  unfold Qcprod in *. simpl.
  apply elem_of_cons in Hin as [<-|Hin]; [ring|]. rewrite IH by done. ring.
Qed.

(** A standard deviation of zero among finite ones makes the covariance
    singular. *)
Lemma zero_deviation_singular (sigma : list value) :
  Forall (λ v, isfinite v = true) sigma → vnum 0 ∈ sigma →
  singular (diag_cov sigma).
Proof.
  intros [qs ->]%finite_values Hin. unfold singular.
  rewrite det_diag_cov, vnum_0. f_equal. apply Qcprod_zero.
  rewrite vnum_0 in Hin. apply list_elem_of_fmap in Hin as (q & Hq & Hin).
  by apply (inj Num) in Hq as <-.
Qed.

Lemma linalg_inv_singular (m : matrix) :
  singular m → linalg_inv m = Raise LinAlgError.
Proof.
  unfold singular, linalg_inv. intros ->.
  destruct (decide _); [|done].
  assert (veqb (vnum 0) (vnum 0) = true) as -> by (by apply veqb_true). done.
Qed.

Lemma filter_by_probability_nan {A} (match_p_min : value) (c : A)
    (matched : list (A * value)) :
  (c, NaN) ∉ filter_by_probability match_p_min matched.
Proof.
  unfold filter_by_probability. by intros [? _]%list_elem_of_filter.
Qed.

Section probability_facts.
Variable chi2_cdf : value → nat → value.

(** C5. When the diagonal covariance built from the standard
    deviations of the row is singular, which is the case as soon as
    one of them is zero ([zero_deviation_singular]), [get_probability]
    raises nothing and returns NaN; the acceptance test is false on
    NaN, so the filter on the probability never keeps such a
    candidate. *)
Theorem get_probability_singular (df ref sigma : matrix) (index : nat)
    (x mu s : list value) :
  df !! index = Some x → ref !! index = Some mu → sigma !! index = Some s →
  singular (diag_cov s) →
  get_probability chi2_cdf df ref sigma index = Ok NaN ∧
  (∀ match_p_min, accepts NaN match_p_min = false) ∧
  (∀ match_p_min (c : nat) (matched : list (nat * value)),
     (c, NaN) ∉ filter_by_probability match_p_min matched).
Proof.
  intros Hx Hmu Hs Hsing. split; [|split].
  - unfold get_probability, iloc. rewrite Hs, Hmu, Hx. simpl.
    rewrite (linalg_inv_singular _ Hsing).
    by destruct (broadcast2 vsub x mu).
  - done.
  - intros. apply filter_by_probability_nan.
Qed.
End probability_facts.

(** ** The theorems at concrete inputs *)

(** [calculate_distance_medians] on the tables of the notebook's test:
    both distances are -1 over the four shared precursors, in whatever
    order these are listed. *)
Lemma calculate_distance_medians_witness :
  NoDup (df_index test_df_1) ∧ NoDup (df_index test_df_2) ∧
  dims_available test_df_1 test_df_2 test_offset_dict false ∧
  ["D"; "C"; "B"; "A"] ≡ₚ shared_precursors test_df_1 test_df_2 ∧
  calculate_distance test_df_1 test_df_2 test_offset_dict false
  = Ok ([vnum (-1); vnum (-1)], 4%nat) ∧
  calculate_distance_on ["D"; "C"; "B"; "A"] test_df_1 test_df_2
    test_offset_dict false
  = Ok ([vnum (-1); vnum (-1)], 4%nat).
Proof.
  assert (H1 : NoDup (df_index test_df_1)) by by_computation.
  assert (H2 : NoDup (df_index test_df_2)) by by_computation.
  assert (H3 : dims_available test_df_1 test_df_2 test_offset_dict false)
    by by_computation.
  assert (H4 : ["D"; "C"; "B"; "A"] ≡ₚ shared_precursors test_df_1 test_df_2)
    by by_computation.
  destruct (calculate_distance_medians _ _ _ _ _ H1 H2 H3 H4) as (Ha & Hb & _).
  do 4 (split; [assumption|]).
  split.
  - rewrite Ha. by_computation.
  - rewrite Hb. by_computation.
Defined.


(** [get_probability_singular] on a candidate whose reference has a
    standard deviation of zero in its first dimension. *)
Lemma get_probability_singular_witness :
  [[vnum 100; vnum 1]] !! 0%nat = Some [vnum 100; vnum 1] ∧
  [[vnum 0; vnum 1]] !! 0%nat = Some [vnum 0; vnum 1] ∧
  singular (diag_cov [vnum 0; vnum 1]) ∧
  get_probability (λ v _, v) [[vnum 100; vnum 1]] [[vnum 100; vnum 1]]
    [[vnum 0; vnum 1]] 0 = Ok NaN ∧
  accepts NaN (vnum 1) = false.
Proof.
  assert (H1 : [[vnum 100; vnum 1]] !! 0%nat = Some [vnum 100; vnum 1])
    by reflexivity.
  assert (H2 : [[vnum 0; vnum 1]] !! 0%nat = Some [vnum 0; vnum 1])
    by reflexivity.
  assert (H3 : singular (diag_cov [vnum 0; vnum 1])) by by_computation.
  destruct (get_probability_singular (λ v _, v) _ _ _ 0%nat _ _ _ H1 H1 H2 H3)
    as (Ha & Hb & _).
  do 3 (split; [assumption|]).
  split; [exact Ha | exact (Hb (vnum 1))].
Defined.

(** [unsupported_mode_only_failure] on the tables of the notebook's
    test and a mapping with an unsupported mode. *)
Lemma unsupported_mode_only_failure_witness :
  NoDup (df_index test_df_1) ∧ NoDup (df_index test_df_2) ∧
  columns_available test_df_1 test_df_2 test_bad_offset_dict false ∧
  offsets_available test_df_1 test_delta test_bad_offset_dict ∧
  unsupported_mode_in test_bad_offset_dict ∧
  unsupported
    (raised (calculate_distance test_df_1 test_df_2 test_bad_offset_dict false)) ∧
  unsupported (calib_table test_df_1 test_delta test_bad_offset_dict).2.
Proof.
  assert (H1 : NoDup (df_index test_df_1)) by by_computation.
  assert (H2 : NoDup (df_index test_df_2)) by by_computation.
  assert (H3 : columns_available test_df_1 test_df_2 test_bad_offset_dict false)
    by by_computation.
  assert (H4 : offsets_available test_df_1 test_delta test_bad_offset_dict)
    by by_computation.
  assert (H5 : unsupported_mode_in test_bad_offset_dict) by by_computation.
  destruct (unsupported_mode_only_failure _ _ _ _ _ _ H1 H2 H3 H4)
    as (Ha & _ & Hb & _).
  do 5 (split; [assumption|]).
  split; [exact (proj2 Ha H5) | exact (proj2 Hb H5)].
Defined.

(** [calculate_distance_self] on the first table of the notebook's
    test. *)
Lemma calculate_distance_self_witness :
  NoDup (df_index test_df_1) ∧ df_wf test_df_1 ∧
  dims_available test_df_1 test_df_1 test_offset_dict false ∧
  ["E"; "D"; "C"; "B"; "A"] ≡ₚ df_index test_df_1 ∧
  calculate_distance test_df_1 test_df_1 test_offset_dict false
  = Ok ([vnum 0; vnum 0], 5%nat) ∧
  calculate_distance_on ["E"; "D"; "C"; "B"; "A"] test_df_1 test_df_1
    test_offset_dict false
  = Ok ([vnum 0; vnum 0], 5%nat).
Proof.
  assert (H1 : NoDup (df_index test_df_1)) by by_computation.
  assert (H2 : df_wf test_df_1) by by_computation.
  assert (H3 : dims_available test_df_1 test_df_1 test_offset_dict false)
    by by_computation.
  assert (H4 : ["E"; "D"; "C"; "B"; "A"] ≡ₚ df_index test_df_1)
    by by_computation.
  destruct (calculate_distance_self _ _ _ _ H1 H2 H3 H4) as [Ha Hb].
  do 4 (split; [assumption|]).
  split.
  - rewrite Ha. by_computation.
  - rewrite Hb. by_computation.
Defined.

(** ** The notebook's tests on the embedding *)

(** [test_calib_table]: the mass offset of 1 is subtracted. *)
Example test_calib_table :
  let a := mkDataFrame ["A"; "B"; "C"; "D"; "E"]
             {[ "mass" := vnum <$> [10; 20; 30; 40; 50]%Z ]} in
  let r := calib_table a {[ "mass" := vnum 1 ]} [("mass", "absolute")] in
  r.2 = None ∧ getcol r.1 "mass_calib" = Ok (vnum <$> [9; 19; 29; 39; 49]%Z).
Proof. split; by_computation. Qed.

(** [test_align]: the design matrix of the three pairs of three files. *)
Example test_align_matrix :
  align_matrix ["A"; "B"; "C"]
    [ (("A", "B"), [vnum 1]); (("A", "C"), [vnum (-1)]); (("B", "C"), [vnum (-2)]) ]
  = Ok [ [vnum 1; vnum 0]; [vnum 1; vnum 1]; [vnum 0; vnum 1] ].
Proof. by_computation. Qed.

(** The example of [get_probability] in the notebook, with the identity
    in place of the chi-squared distribution: the squared distance is 0
    for the first row, 1/4 for the second and 40 for the third. *)
Example test_get_probability_distance :
  let a := [[vnum 100; vnum 1]; [vnum 200; vnum 2]; [vnum 300; vnum 3]] in
  let b := [[vnum 100; vnum 1]; [vnum 200; vdiv (vnum 5) (vnum 2)];
            [vnum 302; vnum 3]] in
  let tenth := vdiv (vnum 1) (vnum 10) in
  let std := [[tenth; vnum 1]; [tenth; vnum 1]; [tenth; vnum 1]] in
  get_probability (λ v _, v) a b std 0 = Ok (vnum 0) ∧
  get_probability (λ v _, v) a b std 1 = Ok (vdiv (vnum 1) (vnum 4)) ∧
  get_probability (λ v _, v) a b std 2 = Ok (vnum 40).
Proof. repeat split; by_computation. Qed.

(** * Further properties *)

(** ** Arithmetic on all values *)

Lemma vadd_comm (a b : value) : vadd a b = vadd b a.
Proof.
  destruct a as [| | |x], b as [| | |y]; simpl; try done. f_equal. ring.
Qed.

Lemma vopp_involutive (a : value) : vopp (vopp a) = a.
Proof. destruct a as [| | |x]; simpl; try done. f_equal. ring. Qed.

Lemma vopp_vadd (a b : value) : vopp (vadd a b) = vadd (vopp a) (vopp b).
Proof.
  destruct a as [| | |x], b as [| | |y]; simpl; try done. f_equal. ring.
Qed.

Lemma vsub_swap (a b : value) : vsub b a = vopp (vsub a b).
Proof.
  unfold vsub. rewrite vopp_vadd, vopp_involutive. apply vadd_comm.
Qed.

Lemma Qcsgn_opp (x : Qc) : Qcsgn (- x) = CompOpp (Qcsgn x).
Proof.
  unfold Qcsgn.
  destruct (Qc_dec x 0) as [[Hlt|Hgt]| ->].
  - rewrite (proj1 (Qclt_alt x 0) Hlt). simpl. apply Qcgt_alt.
    apply Qclt_minus_iff in Hlt. by rewrite Qcplus_0_l in Hlt.
  - rewrite (proj1 (Qcgt_alt x 0) Hgt). simpl. apply Qclt_alt.
    apply Qclt_minus_iff. by rewrite Qcplus_0_l, Qcopp_involutive.
  - done.
Qed.

Lemma inf_signed_opp (p : bool) (s : comparison) :
  inf_signed p (CompOpp s) = vopp (inf_signed p s).
Proof. by destruct p, s. Qed.

Lemma vmul_vopp_r (a b : value) : vmul a (vopp b) = vopp (vmul a b).
Proof.
  destruct a as [| | |x], b as [| | |y]; simpl; try done;
    rewrite ?Qcsgn_opp, ?inf_signed_opp; try done;
    try (by destruct (Qcsgn x)).
  f_equal. ring.
Qed.

Lemma vdiv_vopp_l (a b : value) : vdiv (vopp a) b = vopp (vdiv a b).
Proof.
  destruct a as [| | |x], b as [| | |y]; simpl; try done;
    try (by destruct (Qcsgn y)); try (f_equal; ring).
  destruct (decide (y = 0)) as [->|Hy].
  - by rewrite Qcsgn_opp, inf_signed_opp.
  - simpl. f_equal. by field.
Qed.

Lemma spec_difference_swap (mode : string) (v1 v2 : value) :
  spec_difference mode v2 v1 = vopp (spec_difference mode v1 v2).
Proof.
  unfold spec_difference. destruct (decide _); [apply vsub_swap|].
  by rewrite (vadd_comm v2 v1), (vsub_swap v1 v2), vmul_vopp_r, vdiv_vopp_l.
Qed.

(** ** How the median follows a change of the values *)

Lemma dropna_fmap (f : value → value) (a : list value) :
  f NaN = NaN → (∀ v, v ≠ NaN → f v ≠ NaN) →
  dropna (f <$> a) = f <$> dropna a.
Proof.
  intros Hnan Hf. unfold dropna. induction a as [|v a IH]; [done|].
  rewrite fmap_cons. destruct (decide (v = NaN)) as [->|Hv].
  - rewrite Hnan, !filter_cons_False by (by intros []). done.
  - rewrite !filter_cons_True by auto. by rewrite fmap_cons, IH.
Qed.

Lemma dropna_no_nan (a : list value) : Forall (λ v, v ≠ NaN) (dropna a).
Proof.
  apply Forall_forall. by intros v [Hv _]%list_elem_of_filter.
Qed.

Lemma sorted_no_nan (a : list value) :
  Forall (λ v, v ≠ NaN) (merge_sort vle (dropna a)).
Proof. rewrite merge_sort_Permutation. apply dropna_no_nan. Qed.

Lemma sorted_strongly (a : list value) : StronglySorted vle (merge_sort vle a).
Proof. apply Sorted_StronglySorted; [apply _|]. apply Sorted_merge_sort, _. Qed.

(** The median of a sorted array does not change when the array is
    reversed. *)
Lemma median_sorted_reverse (xs : list value) :
  median_sorted (reverse xs) = median_sorted xs.
Proof.
  unfold median_sorted. rewrite length_reverse.
  set (n := length xs).
  destruct (decide (n = 0%nat)) as [|Hn]; [done|].
  pose proof (Nat.div_mod_eq n 2) as Hdm.
  pose proof (Nat.mod_upper_bound n 2 ltac:(lia)) as Hmod.
  assert (Hrev : ∀ i, (i < n)%nat → reverse xs !!! i = xs !!! (n - S i)%nat).
  { intros i Hi. rewrite !list_lookup_total_alt, reverse_lookup by done. done. }
  destruct (Nat.odd n) eqn:Hodd.
  - apply Nat.odd_spec in Hodd as [k Hk].
    rewrite Hrev by lia. f_equal. lia.
  - assert (Heven : (n mod 2 = 0)%nat).
    { destruct (Nat.eq_dec (n mod 2) 0%nat) as [|Hm1]; [done|].
      assert (Nat.odd n = true); [|congruence].
      apply Nat.odd_spec. exists (n / 2)%nat. lia. }
    rewrite !Hrev by lia.
    replace (n - S (n / 2 - 1))%nat with (n / 2)%nat by lia.
    replace (n - S (n / 2))%nat with (n / 2 - 1)%nat by lia.
    by rewrite vadd_comm.
Qed.

(** A map that commutes with the mean of two values commutes with the
    median of a sorted array. *)
Lemma median_sorted_fmap (f : value → value) (xs : list value) :
  f NaN = NaN →
  (∀ a b, vdiv (vadd (f a) (f b)) (vnum 2) = f (vdiv (vadd a b) (vnum 2))) →
  median_sorted (f <$> xs) = f (median_sorted xs).
Proof.
  intros Hnan Hmid. unfold median_sorted. rewrite length_fmap.
  set (n := length xs).
  destruct (decide (n = 0%nat)) as [|Hn]; [done|].
  assert (Hlt : (n / 2 < n)%nat) by (apply Nat.div_lt; lia).
  destruct (Nat.odd n).
  - by rewrite (list_lookup_total_fmap f xs) by (fold n; lia).
  - rewrite !(list_lookup_total_fmap f xs) by (fold n; lia). apply Hmid.
Qed.


Lemma sorted_fmap_anti (f : value → value) (xs : list value) :
  (∀ a b, a ≠ NaN → b ≠ NaN → vle a b → vle (f b) (f a)) →
  Forall (λ v, v ≠ NaN) xs →
  StronglySorted vle xs → StronglySorted vle (reverse (f <$> xs)).
Proof.
  intros Hf Hn Hs. induction Hs as [|x xs Hs IH Hall]; [constructor|].
  apply Forall_cons in Hn as [Hx Hn]. rewrite fmap_cons, reverse_cons.
  apply StronglySorted_app. split; [|split].
  - intros y1 y2 Hy1 ->%list_elem_of_singleton.
    apply elem_of_reverse, list_elem_of_fmap in Hy1 as (y & -> & Hy).
    rewrite Forall_forall in Hall, Hn. apply Hf; auto.
  - by apply IH.
  - repeat constructor.
Qed.


(** The same for a map that reverses the order. *)
Lemma nanmedian_fmap_anti (f : value → value) (a : list value) :
  f NaN = NaN → (∀ v, v ≠ NaN → f v ≠ NaN) →
  (∀ a b, a ≠ NaN → b ≠ NaN → vle a b → vle (f b) (f a)) →
  (∀ a b, vdiv (vadd (f a) (f b)) (vnum 2) = f (vdiv (vadd a b) (vnum 2))) →
  nanmedian (f <$> a) = f (nanmedian a).
Proof.
  intros Hnan Hf Hanti Hmid. unfold nanmedian.
  rewrite dropna_fmap by done.
  rewrite <-(median_sorted_fmap f), <-(median_sorted_reverse (f <$> _)) by done.
  f_equal. apply (Sorted_unique vle).
  - apply Sorted_merge_sort, _.
  - apply StronglySorted_Sorted, sorted_fmap_anti;
      [done | apply sorted_no_nan | apply sorted_strongly].
  - by rewrite reverse_Permutation, !merge_sort_Permutation.
Qed.

Lemma nanmedian_vopp (a : list value) :
  nanmedian (vopp <$> a) = vopp (nanmedian a).
Proof.
  apply nanmedian_fmap_anti.
  - done.
  - by intros [| | |x].
  - intros [| | |x] [| | |y]; simpl; try done. intros _ _. apply Qcopp_le_compat.
  - intros x y. by rewrite <-vopp_vadd, vdiv_vopp_l.
Qed.

(** ** Distance estimator: the two tables exchanged *)

Lemma shared_precursors_comm (table_1 table_2 : DataFrame) :
  shared_precursors table_2 table_1 = shared_precursors table_1 table_2.
Proof. unfold shared_precursors. f_equal. apply (comm_L (∩)). Qed.

Lemma dims_available_comm (table_1 table_2 : DataFrame) (od : offset_dict)
    (calib : bool) :
  dims_available table_1 table_2 od calib →
  dims_available table_2 table_1 od calib.
Proof. unfold dims_available. intros H. eapply Forall_impl; [done|]. by intros ? (? & ? & ?). Qed.

Lemma spec_distance_swap (table_1 table_2 : DataFrame) (calib : bool)
    (dim : string * string) :
  spec_distance table_2 table_1 calib dim
  = vopp (spec_distance table_1 table_2 calib dim).
Proof.
  unfold spec_distance. rewrite shared_precursors_comm, <-nanmedian_vopp.
  f_equal. rewrite <-list_fmap_compose. apply list_fmap_ext.
  intros i k _. simpl. apply spec_difference_swap.
Qed.

(** X1.  For tables with distinct row labels that hold every dimension's
    column, exchanging the two tables in [calculate_distance] negates
    the distance of every dimension, in both modes, and leaves the
    number of shared precursors as it is (a distance that is NaN stays
    NaN). *)
Theorem calculate_distance_swap (table_1 table_2 : DataFrame)
    (od : offset_dict) (calib : bool) :
  NoDup (df_index table_1) → NoDup (df_index table_2) →
  dims_available table_1 table_2 od calib →
  ∃ deltas n,
    calculate_distance table_1 table_2 od calib = Ok (deltas, n) ∧
    calculate_distance table_2 table_1 od calib = Ok (vopp <$> deltas, n).
Proof.
  intros Hnd1 Hnd2 Hdims.
  exists (spec_distance table_1 table_2 calib <$> od),
    (size (index_set table_1 ∩ index_set table_2)).
  split; [by apply calculate_distance_on_medians|].
  unfold calculate_distance.
  rewrite (calculate_distance_on_medians table_2 table_1 od calib)
    by auto using dims_available_comm.
  rewrite (comm_L (∩) (index_set table_2)). do 2 f_equal.
  rewrite <-list_fmap_compose. apply list_fmap_ext.
  intros i dim _. apply spec_distance_swap.
Qed.

(** [calculate_distance_swap] on the tables of the notebook's test. *)
Lemma calculate_distance_swap_witness :
  NoDup (df_index test_df_1) ∧ NoDup (df_index test_df_2) ∧
  dims_available test_df_1 test_df_2 test_offset_dict false ∧
  calculate_distance test_df_2 test_df_1 test_offset_dict false
  = Ok ([vnum 1; vnum 1], 4%nat).
Proof.
  assert (H1 : NoDup (df_index test_df_1)) by by_computation.
  assert (H2 : NoDup (df_index test_df_2)) by by_computation.
  assert (H3 : dims_available test_df_1 test_df_2 test_offset_dict false)
    by by_computation.
  destruct (calculate_distance_swap _ _ _ _ H1 H2 H3) as (ds & n & Ha & Hb).
  do 3 (split; [assumption|]).
  rewrite Hb. 
  assert (Hc : calculate_distance test_df_1 test_df_2 test_offset_dict false
               = Ok ([vnum (-1); vnum (-1)], 4%nat)) by by_computation.
  rewrite Hc in Ha. injection Ha as <- <-. by_computation.
Defined.

(** ** Calibrator: the columns it writes and the columns it keeps *)

Lemma list_ascii_of_string_app (a b : string) :
  String.list_ascii_of_string (a +:+ b)
  = String.list_ascii_of_string a ++ String.list_ascii_of_string b.
Proof. induction a as [|x a IH]; simpl; [done | by f_equal]. Qed.

Global Instance calib_name_inj : Inj (=) (=) calib_name.
Proof.
  intros a b H. unfold calib_name in H.
  apply (f_equal String.list_ascii_of_string) in H.
  rewrite !list_ascii_of_string_app in H. apply app_inv_tail in H.
  apply (f_equal String.string_of_list_ascii) in H.
  by rewrite !String.string_of_list_ascii_of_string in H.
Qed.

Lemma apex_name_ne_calib_name (c c' : string) : apex_name c ≠ calib_name c'.
Proof.
  unfold apex_name, calib_name. intros H.
  apply (f_equal String.list_ascii_of_string) in H.
  rewrite !list_ascii_of_string_app in H.
  apply (f_equal reverse) in H. rewrite !reverse_app in H.
  vm_compute String.list_ascii_of_string in H. vm_compute reverse in H.
  discriminate H.
Qed.

Lemma has_column_setcol_ne (t : DataFrame) (c c' : string) (vs : list value) :
  c ≠ c' → has_column (setcol t c' vs) c = has_column t c.
Proof.
  intros Hne. unfold has_column, setcol. simpl.
  by rewrite lookup_insert_ne.
Qed.

Lemma spec_source_setcol (t : DataFrame) (c c' : string) (vs : list value) :
  c ≠ calib_name c' →
  spec_source (setcol t (calib_name c') vs) c = spec_source t c ∧
  spec_source t c ≠ calib_name c'.
Proof.
  intros Hne. unfold spec_source. rewrite has_column_setcol_ne by done.
  split; [done|]. destruct (has_column t c); [done|].
  apply apex_name_ne_calib_name.
Qed.

(** A turn of the loop that does not raise writes one column, computed
    value by value from a column of the table. *)
Lemma calib_column_Ok (table table' : DataFrame) (delta : gmap string value)
    (col mode : string) :
  calib_column table delta col mode = Ok table' →
  ∃ c (src : list value) (f : value → value),
    df_columns table !! c = Some src ∧
    table' = setcol table (calib_name col) (f <$> src).
Proof.
  unfold calib_column, getcol, getdelta.
  set (col_ := if _ : bool then _ else _). clearbody col_.
  destruct (decide (mode = "absolute")).
  - destruct (df_columns table !! col_) as [src|] eqn:Hs; [|done]. simpl.
    destruct (delta !! col) as [d|]; [|done]. simpl.
    intros [= <-]. by exists col_, src, (λ v, vsub v d).
  - destruct (decide (mode = "relative")); [|done].
    destruct (delta !! col_) as [d|]; [|done]. simpl.
    destruct (df_columns table !! col) as [src|] eqn:Hs; [|done]. simpl.
    intros [= <-]. by exists col, src, (λ v, vmul (vsub (vnum 1) d) v).
Qed.

Lemma calib_table_spec (table : DataFrame) (delta : gmap string value)
    (od : offset_dict) :
  calibratable table delta od → calib_names_apart od →
  ∃ table',
    calib_table table delta od = (table', None) ∧
    df_index table' = df_index table ∧
    (∀ col mode, (col, mode) ∈ od →
       ∃ src d, df_columns table !! spec_source table col = Some src ∧
                delta !! col = Some d ∧
                df_columns table' !! calib_name col
                = Some (spec_calibrated mode d src)) ∧
    (∀ c, c ∉ calib_name <$> od.*1 →
          df_columns table' !! c = df_columns table !! c).
Proof.
  revert table. induction od as [|[col mode] od IH]; intros table Hcal [Hnd Hap].
  { exists table. split; [done|]. split; [done|].
    split; [by intros col mode ?%elem_of_nil | done]. }
  apply Forall_cons in Hcal as [([d Hd] & Hsrc & Hmode) Hcal]. simpl in *.
  apply NoDup_cons in Hnd as [Hcol Hnd].
  apply Forall_cons in Hap as [Hap_col Hap].
  apply has_column_true in Hsrc as [src Hsrc].
  set (t1 := setcol table (calib_name col) (spec_calibrated mode d src)).
  assert (Hstep : calib_column table delta col mode = Ok t1).
  { destruct Hmode as [->|[-> Hc]].
    - by apply calib_column_absolute.
    - apply calib_column_relative; [|done].
      unfold spec_source in Hsrc. by rewrite Hc in Hsrc. }
  assert (Hne : ∀ c, c ∈ od.*1 → c ≠ calib_name col).
  { intros c Hc. rewrite Forall_forall in Hap.
    specialize (Hap c Hc). by apply Forall_cons in Hap as [? _]. }
  assert (Hcal1 : calibratable t1 delta od).
  { unfold calibratable in *. rewrite Forall_forall in Hcal |- *.
    intros [c m] Hin. destruct (Hcal _ Hin) as (Hdc & Hsc & Hm). simpl in *.
    assert (Hc : c ≠ calib_name col).
    { apply Hne, list_elem_of_fmap. by exists (c, m). }
    destruct (spec_source_setcol table c col (spec_calibrated mode d src) Hc)
      as [Heq _]. fold t1 in Heq.
    split; [done|]. split.
    - rewrite Heq. by apply has_column_setcol.
    - destruct Hm as [?|[? ?]]; [by left|].
      right. split; [done|]. by apply has_column_setcol. }
  assert (Hap1 : calib_names_apart od).
  { split; [done|]. eapply Forall_impl; [exact Hap|].
    intros c Hc. by apply Forall_cons in Hc as [_ ?]. }
  destruct (IH t1 Hcal1 Hap1) as (t' & Hrun & Hidx & Hdims & Hframe).
  exists t'. cbn [calib_table]. rewrite Hstep. split; [done|].
  split; [done|]. split.
  - intros c m [[= -> ->]|Hin]%elem_of_cons.
    + exists src, d. split; [done|]. split; [done|].
      rewrite Hframe.
      * subst t1. simpl. by rewrite lookup_insert_eq.
      * intros (c' & Heq%(inj calib_name) & Hc')%list_elem_of_fmap.
        by subst c'.
    + destruct (Hdims c m Hin) as (src' & d' & Hs' & Hd' & Hw).
      exists src', d'. split; [|done].
      assert (Hc : c ≠ calib_name col).
      { apply Hne, list_elem_of_fmap. by exists (c, m). }
      destruct (spec_source_setcol table c col (spec_calibrated mode d src) Hc)
        as [Heq Hns]. fold t1 in Heq.
      rewrite Heq in Hs'. subst t1. simpl in Hs'.
      by rewrite lookup_insert_ne in Hs'.
  - intros c Hc.
    assert (c ≠ calib_name col ∧ c ∉ calib_name <$> od.*1) as [Hc1 Hc2].
    { split; [intros ->; apply Hc; constructor | intros H; apply Hc; by constructor]. }
    rewrite Hframe by done. subst t1. simpl. by rewrite lookup_insert_ne.
Qed.

(** X3.  When the table holds the column that is read for every
    dimension (the column of the dimension or, in absolute mode, its
    apex column) and the series holds every offset, [calib_table] raises
    nothing, keeps the row labels, writes for every dimension the column
    [<dimension>_calib] computed from the column as it was before the
    call (minus the offset in absolute mode, times one minus the offset
    in relative mode), and leaves every other column as it was. *)
Theorem calib_table_writes_calibrated_columns (table : DataFrame)
    (delta : gmap string value) (od : offset_dict) :
  calibratable table delta od → calib_names_apart od →
  ∃ table',
    calib_table table delta od = (table', None) ∧
    df_index table' = df_index table ∧
    (∀ col mode, (col, mode) ∈ od →
       ∃ src d, df_columns table !! spec_source table col = Some src ∧
                delta !! col = Some d ∧
                df_columns table' !! calib_name col
                = Some (spec_calibrated mode d src)) ∧
    (∀ c, c ∉ calib_name <$> od.*1 →
          df_columns table' !! c = df_columns table !! c).
Proof. apply calib_table_spec. Qed.

(** [calib_table_writes_calibrated_columns] on the first table of the
    notebook's test, with an absolute and a relative dimension. *)
Lemma calib_table_writes_calibrated_columns_witness :
  calibratable test_df_1 test_delta test_offset_dict ∧
  calib_names_apart test_offset_dict ∧
  ∃ table',
    calib_table test_df_1 test_delta test_offset_dict = (table', None) ∧
    df_columns table' !! "mass_calib" = Some (vnum <$> [9; 19; 29; 39; 49]%Z) ∧
    df_columns table' !! "mobility_calib" = df_columns test_df_1 !! "mobility" ∧
    df_columns table' !! "mass" = df_columns test_df_1 !! "mass".
Proof.
  assert (H1 : calibratable test_df_1 test_delta test_offset_dict)
    by by_computation.
  assert (H2 : calib_names_apart test_offset_dict) by by_computation.
  do 2 (split; [assumption|]).
  destruct (calib_table_writes_calibrated_columns _ _ _ H1 H2)
    as (table' & Hrun & _ & _ & Hframe).
  exists table'. split; [exact Hrun|].
  assert (Heq : (calib_table test_df_1 test_delta test_offset_dict).1 = table')
    by by rewrite Hrun.
  split; [|split].
  - rewrite <-Heq. by_computation.
  - rewrite <-Heq. by_computation.
  - apply Hframe. by_computation.
Defined.

(** X4.  Whatever [calib_table] does, and also when it raises half-way,
    the table it leaves behind has the row labels it had, every column
    other than the [<dimension>_calib] columns is as it was, no column is
    removed, and the columns are still as long as the index. *)
Theorem calib_table_frame (table : DataFrame) (delta : gmap string value)
    (od : offset_dict) :
  df_index (calib_table table delta od).1 = df_index table ∧
  (∀ c, c ∉ calib_name <$> od.*1 →
        df_columns (calib_table table delta od).1 !! c = df_columns table !! c) ∧
  (∀ c, has_column table c = true →
        has_column (calib_table table delta od).1 c = true) ∧
  (df_wf table → df_wf (calib_table table delta od).1).
Proof.
  revert table. induction od as [|[col mode] od IH]; intros table; [done|].
  cbn [calib_table].
  destruct (calib_column table delta col mode) as [t1|e] eqn:Hstep; [|done].
  apply calib_column_Ok in Hstep as (c0 & src & f & Hsrc & ->).
  destruct (IH (setcol table (calib_name col) (f <$> src)))
    as (Hidx & Hframe & Hhas & Hwf).
  split; [done|]. split; [|split].
  - intros c Hc.
    assert (c ≠ calib_name col ∧ c ∉ calib_name <$> od.*1) as [Hc1 Hc2].
    { split; [intros ->; apply Hc; constructor
             | intros H; apply Hc; by constructor]. }
    rewrite Hframe by done. simpl. by rewrite lookup_insert_ne.
  - intros c Hc. by apply Hhas, has_column_setcol.
  - intros Hw. apply Hwf. unfold df_wf, setcol in *. simpl.
    apply map_Forall_insert_2; [|done].
    rewrite length_fmap. by apply (Hw c0).
Qed.

(** ** Calibration and distance *)








(** ** Global aligner: the design matrix *)

Lemma list_index_Ok (l : list string) (x : string) (i : nat) :
  list_index l x = Ok i → position l x = i ∧ l !! i = Some x.
Proof.
  unfold list_index, position.
  destruct (list_find _ l) as [[i' y]|] eqn:Hf; [|done].
  intros [= <-]. apply list_find_Some in Hf as (Hi & -> & _). done.
Qed.

Lemma list_index_Raise (l : list string) (x : string) (e : exn) :
  list_index l x = Raise e → e = ValueError ∧ x ∉ l.
Proof.
  unfold list_index.
  destruct (list_find _ l) as [[i' y]|] eqn:Hf; [done|].
  intros [= <-]. split; [done|]. intros Hin.
  apply list_find_None in Hf. rewrite Forall_forall in Hf. by apply (Hf x).
Qed.

Lemma length_slice_ones (n i j : nat) : length (slice_ones n i j) = n.
Proof. unfold slice_ones. by rewrite length_fmap, length_seq. Qed.

Lemma align_matrix_outcome (filenames : list string) (deltas : deltas_table) :
  match align_matrix filenames deltas with
  | Ok m =>
      Forall (known_pair filenames) deltas ∧
      Forall2 (λ row d, row = slice_ones (length filenames - 1)
                                (position filenames d.1.1)
                                (position filenames d.1.2)) m deltas
  | Raise e =>
      e = ValueError ∧ Exists (λ d, ¬ known_pair filenames d) deltas
  end.
Proof.
  induction deltas as [|[[start stop] obs] deltas IH]; [by split|].
  cbn [align_matrix].
  destruct (list_index filenames start) as [i|e] eqn:Hi; simpl.
  2:{ apply list_index_Raise in Hi as [-> Hi]. split; [done|].
      left. by intros [? ?]. }
  destruct (list_index filenames stop) as [j|e] eqn:Hj; simpl.
  2:{ apply list_index_Raise in Hj as [-> Hj]. split; [done|].
      left. by intros [? ?]. }
  apply list_index_Ok in Hi as [<- Hi]. apply list_index_Ok in Hj as [<- Hj].
  destruct (align_matrix filenames deltas) as [m|e]; simpl.
  - destruct IH as [Hk Hm]. split.
    + constructor; [|done]. split; simpl; by eapply list_elem_of_lookup_2.
    + by constructor.
  - destruct IH as [-> Hex]. split; [done | by right].
Qed.

Lemma masked_product (i j s : nat) (coef : list Qc) :
  zip_with vmul
    ((λ k, if decide (i ≤ k < j)%nat then vnum 1 else vnum 0)
       <$> seq s (length coef))
    (Num <$> coef)
  = Num <$> zip_with (λ (k : nat) c, if decide (i ≤ k < j)%nat then c else 0)
              (seq s (length coef)) coef.
Proof.
  revert s. induction coef as [|c coef IH]; intros s; [done|].
  csimpl. f_equal; [|apply IH].
  destruct (decide _); rewrite ?vnum_0, ?vnum_1; simpl; f_equal; ring.
Qed.

Lemma masked_sum (i j s : nat) (coef : list Qc) :
  Qcsum (zip_with (λ (k : nat) c, if decide (i ≤ k < j)%nat then c else 0)
           (seq s (length coef)) coef)
  = Qcsum (take (j - i `max` s) (drop (i - s) coef)).
Proof.
  revert s. induction coef as [|c coef IH]; intros s.
  { simpl. by rewrite drop_nil, take_nil. }
  simpl length. simpl seq. simpl zip_with. rewrite Qcsum_cons, IH.
  destruct (decide (i ≤ s < j)%nat) as [[Hi Hj]|Hn].
  - replace (i - s)%nat with 0%nat by lia. rewrite drop_0.
    replace (j - i `max` s)%nat with (S (j - i `max` S s)) by lia.
    simpl. rewrite Qcsum_cons. f_equal.
    replace (i - S s)%nat with 0%nat by lia. by rewrite drop_0.
  - destruct (decide (s < i)%nat) as [Hs|Hs].
    + replace (i - s)%nat with (S (i - S s)) by lia. simpl.
      replace (i `max` S s)%nat with (i `max` s)%nat by lia. ring.
    + replace (j - i `max` S s)%nat with 0%nat by lia.
      replace (j - i `max` s)%nat with 0%nat by lia.
      rewrite !take_0. unfold Qcsum. simpl. ring.
Qed.

(** The product of a row of the design matrix with a vector of
    coefficients. *)
Lemma slice_ones_dot (i j : nat) (coef : list Qc) :
  dot_vv (slice_ones (length coef) i j) (Num <$> coef)
  = Ok (Num (Qcsum (between i j coef))).
Proof.
  unfold dot_vv. rewrite length_slice_ones, length_fmap.
  rewrite decide_True by done. unfold slice_ones.
  rewrite masked_product, vsum_Num, masked_sum. unfold between.
  by rewrite Nat.max_0_r, Nat.sub_0_r.
Qed.

(** X5.  The design matrix of [align] has one row for each compared
    pair, as wide as there are files but one, and the product of the row
    of a pair with a vector of coefficients is the sum of the
    coefficients from the position of the first file of the pair up to
    the position of its second file: the coefficients are the steps
    from each file to the next one in the list. *)
Theorem align_matrix_rows_sum_steps (filenames : list string)
    (deltas : deltas_table) (m : matrix) (coef : list Qc) :
  align_matrix filenames deltas = Ok m →
  length coef = (length filenames - 1)%nat →
  length m = length deltas ∧
  ∀ r start stop obs,
    deltas !! r = Some ((start, stop), obs) →
    ∃ row, m !! r = Some row ∧ length row = length coef ∧
           dot_vv row (Num <$> coef)
           = Ok (Num (Qcsum (between (position filenames start)
                                     (position filenames stop) coef))).
Proof.
  intros Hm Hlen. pose proof (align_matrix_outcome filenames deltas) as Ho.
  rewrite Hm in Ho. destruct Ho as [_ Hrows]. split.
  - by eapply Forall2_length.
  - intros r start stop obs Hr.
    destruct (Forall2_lookup_r _ _ _ _ _ Hrows Hr) as (row & Hrow & ->).
    exists (slice_ones (length filenames - 1) (position filenames start)
              (position filenames stop)).
    split; [done|]. rewrite <-Hlen. split; [apply length_slice_ones|].
    apply slice_ones_dot.
Qed.

(** [align_matrix_rows_sum_steps] on the pairs of the notebook's
    [test_align]: with the steps 1 and -2, the pair (A, C) is predicted
    at 1 + -2. *)
Lemma align_matrix_rows_sum_steps_witness :
  align_matrix ["A"; "B"; "C"] test_align_deltas
  = Ok [[vnum 1; vnum 0]; [vnum 1; vnum 1]; [vnum 0; vnum 1]] ∧
  length [1; -2] = (length ["A"; "B"; "C"] - 1)%nat ∧
  dot_vv [vnum 1; vnum 1] (Num <$> [1; -2]) = Ok (vnum (-1)).
Proof.
  assert (H1 : align_matrix ["A"; "B"; "C"] test_align_deltas
               = Ok [[vnum 1; vnum 0]; [vnum 1; vnum 1]; [vnum 0; vnum 1]])
    by by_computation.
  assert (H2 : length [1; -2] = (length ["A"; "B"; "C"] - 1)%nat) by done.
  do 2 (split; [assumption|]).
  destruct (align_matrix_rows_sum_steps _ _ _ _ H1 H2) as [_ Hrows].
  destruct (Hrows 1%nat "A" "C" [vnum (-1)] eq_refl) as (row & Hrow & _ & Hdot).
  injection Hrow as <-. rewrite Hdot. by_computation.
Defined.

(** ** Global aligner: what reaches the regression *)

Lemma zip_mask {A B} (a : list A) (b : list B) (m : list bool) :
  length a = length b →
  zip (mask a m) (mask b m) = mask (zip a b) m.
Proof.
  revert b m. induction a as [|x a IH]; intros [|y b] [|[] m] Hlen;
    try done; simplify_eq/=.
  - rewrite !mask_cons. simpl. f_equal. by apply IH.
  - rewrite !mask_cons. by apply IH.
Qed.

Lemma mask_filter {A} (P : A → Prop) `{!∀ x, Decision (P x)} (a : list A) :
  mask a ((λ x, bool_decide (P x)) <$> a) = filter P a.
Proof.
  induction a as [|x a IH]; [done|].
  rewrite fmap_cons, mask_cons, IH. destruct (decide (P x)).
  - by rewrite bool_decide_eq_true_2, filter_cons_True.
  - by rewrite bool_decide_eq_false_2, filter_cons_False.
Qed.

Lemma mask_fmap {A B} (f : A → B) (a : list A) (m : list bool) :
  mask (f <$> a) m = f <$> mask a m.
Proof.
  revert m. induction a as [|x a IH]; intros [|[] m]; try done.
  - rewrite fmap_cons, !mask_cons, fmap_cons. f_equal. apply IH.
  - rewrite fmap_cons, !mask_cons. apply IH.
Qed.

Section align_outcome.
Context {regressor : Type}.
Variable fit :
  option Z → matrix → matrix → option (list value) → result regressor.
Variable score : regressor → matrix → matrix → value.
Variable predict : regressor → matrix → matrix.

(** X6.  A pair that names a file which is not in the list of file names
    makes [align] raise [ValueError] before anything is logged, whatever
    the regression would do. *)
Theorem align_unknown_file (deltas : deltas_table) (filenames : list string)
    (weights : option (list value)) (n_jobs : option Z) :
  Exists (λ d, ¬ known_pair filenames d) deltas →
  align fit score predict deltas filenames weights n_jobs
  = ([], Raise ValueError).
Proof.
  intros Hex. unfold align.
  pose proof (align_matrix_outcome filenames deltas) as Ho.
  destruct (align_matrix filenames deltas) as [m|e].
  - destruct Ho as [Hk _]. exfalso.
    apply Exists_exists in Hex as (d & Hin & Hd).
    rewrite Forall_forall in Hk. by apply Hd, Hk.
  - by destruct Ho as [-> _].
Qed.

(** X7.  When [align] returns, the regression was fitted on one design
    row and one row of distances for each compared pair whose distances
    hold no NaN, in the order of the table: the design row of a pair
    stays with the distances of that pair. *)
Theorem align_keeps_rows_paired (deltas : deltas_table)
    (filenames : list string) (weights : option (list value))
    (n_jobs : option Z) (log : list log_record) (x : matrix) :
  align fit score predict deltas filenames weights n_jobs = (log, Ok x) →
  ∃ design observed w reg,
    fit n_jobs design observed w = Ok reg ∧
    x = predict reg (eye (length filenames - 1)) ∧
    zip design observed
    = (λ d, (slice_ones (length filenames - 1) (position filenames d.1.1)
               (position filenames d.1.2), d.2))
        <$> filter (λ d, Forall (λ v, v ≠ NaN) d.2) deltas.
Proof.
  intros Hrun.
  destruct (align_fits_valid_rows fit score predict _ _ _ _ _ _ Hrun)
    as (m & reg & Hm & Hfit & ->).
  exists (mask m (not_nan_mask deltas)), (valid_comparisons deltas),
    ((λ w, mask w (not_nan_mask deltas)) <$> weights), reg.
  split; [done|]. split; [done|].
  pose proof (align_matrix_outcome filenames deltas) as Ho.
  rewrite Hm in Ho. destruct Ho as [_ Hrows].
  assert (Hmeq : m = (λ d : (string * string) * list value,
                        slice_ones (length filenames - 1)
                          (position filenames d.1.1)
                          (position filenames d.1.2)) <$> deltas).
  { clear -Hrows. induction Hrows as [|row d m ds -> _ IH]; [done|].
    by rewrite fmap_cons, IH. }
  unfold valid_comparisons. rewrite zip_mask.
  2:{ rewrite Hmeq. by rewrite !length_fmap. }
  rewrite Hmeq, (zip_with_fmap_same pair _ snd deltas).
  rewrite mask_fmap. f_equal. apply (mask_filter (λ d, Forall (λ v, v ≠ NaN) d.2)).
Qed.
End align_outcome.

(** [align_unknown_file] on a table of distances that names a file X
    which is not among A, B and C. *)
Lemma align_unknown_file_witness :
  Exists (λ d, ¬ known_pair ["A"; "B"; "C"] d) test_unknown_deltas ∧
  align (λ _ _ observed _, Ok observed) (λ _ _ _, vnum 1) (λ reg _, reg)
    test_unknown_deltas ["A"; "B"; "C"] None None
  = ([], Raise ValueError).
Proof.
  assert (H : Exists (λ d, ¬ known_pair ["A"; "B"; "C"] d) test_unknown_deltas)
    by by_computation.
  split; [assumption|].
  exact (align_unknown_file _ _ _ _ _ None None H).
Defined.

(** [align_keeps_rows_paired] on three runs of which only the pair
    (B, C) shares precursors, with a regression that returns what it was
    fitted on: of the three pairs only (B, C) reaches it, with its own
    design row. *)
Lemma align_keeps_rows_paired_witness :
  align (λ _ design observed _, Ok (zip design observed))
    (λ _ _ _, vnum 1) (λ reg _, reg.*1)
    c7_deltas c7_filenames None None
  = ([RegressionScore (vnum 1)], Ok [[vnum 0; vnum 1]]) ∧
  ∃ design observed,
    zip design observed = [([vnum 0; vnum 1], [vnum 1])].
Proof.
  assert (H : align (λ _ design observed _, Ok (zip design observed))
                (λ _ _ _, vnum 1) (λ reg _, reg.*1)
                c7_deltas c7_filenames None None
              = ([RegressionScore (vnum 1)], Ok [[vnum 0; vnum 1]]))
    by by_computation.
  split; [assumption|].
  destruct (align_keeps_rows_paired _ _ _ _ _ _ _ _ _ H)
    as (design & observed & _ & _ & _ & _ & Hzip).
  exists design, observed. rewrite Hzip. by_computation.
Defined.

(** ** Centering keeps the runs apart as they were *)



(** ** Match probability: the distance that is computed *)

Lemma diag_cov_imap (qs : list Qc) :
  diag_cov (Num <$> qs)
  = imap (λ i q, <[i := Num q]> (replicate (length qs) (Num 0))) qs.
Proof.
  induction qs as [|q qs IH]; [done|].
  rewrite diag_cov_cons, IH, imap_cons, fmap_imap. simpl. f_equal.
Qed.

Lemma diag_cov_lookup (qs : list Qc) (i : nat) (q : Qc) :
  qs !! i = Some q →
  diag_cov (Num <$> qs) !! i
  = Some (<[i := Num q]> (replicate (length qs) (Num 0))).
Proof. intros Hq. by rewrite diag_cov_imap, list_lookup_imap, Hq. Qed.

Lemma diag_cov_length (qs : list Qc) :
  length (diag_cov (Num <$> qs)) = length qs.
Proof. by rewrite diag_cov_imap, length_imap. Qed.

Lemma diag_cov_square (qs : list Qc) :
  Forall (λ row, length row = length qs) (diag_cov (Num <$> qs)).
Proof.
  rewrite diag_cov_imap. apply Forall_lookup. intros i row.
  rewrite list_lookup_imap. intros (q & _ & ->)%fmap_Some.
  by rewrite length_insert, length_replicate.
Qed.

Lemma delete_replicate {A} (n k : nat) (x : A) :
  (k < n)%nat → delete k (replicate n x) = replicate (n - 1) x.
Proof.
  revert k. induction n as [|n IHn]; intros [|k] Hk; try lia; simpl.
  - by rewrite Nat.sub_0_r.
  - cbn [delete list_delete]. rewrite IHn by lia.
    destruct n; [lia|]. simpl. by rewrite Nat.sub_0_r.
Qed.

Lemma diag_cov_minor (qs : list Qc) (i : nat) :
  (i < length qs)%nat →
  delete i <$> delete i (diag_cov (Num <$> qs))
  = diag_cov (Num <$> delete i qs).
Proof.
  revert i. induction qs as [|q qs IH]; intros i Hi; [simpl in Hi; lia|].
  rewrite (diag_cov_cons q qs). destruct i as [|i].
  - simpl. rewrite <-list_fmap_compose.
    rewrite (list_fmap_ext _ id (diag_cov (Num <$> qs))) by done.
    by rewrite list_fmap_id.
  - simpl in Hi.
    change (delete (S i) (q :: qs)) with (q :: delete i qs).
    rewrite (diag_cov_cons q (delete i qs)), <-IH by lia.
    cbn [delete list_delete]. rewrite fmap_cons. cbn [delete list_delete].
    f_equal.
    + f_equal. rewrite length_delete by (apply lookup_lt_is_Some; lia).
      apply delete_replicate. lia.
    + transitivity (delete (S i) <$>
                      (cons (Num 0) <$> delete i (diag_cov (Num <$> qs)))).
      * f_equal. symmetry. apply list_fmap_delete.
      * by rewrite <-!list_fmap_compose.
Qed.

Lemma list_delete_insert {A} (l : list A) (i : nat) (x : A) :
  delete i (<[i := x]> l) = delete i l.
Proof.
  revert i. induction l as [|y l IH]; intros [|i]; try done.
  simpl. cbn [delete list_delete]. f_equal. apply IH.
Qed.

(** A matrix of finite values with a row of zeros has determinant 0. *)
Lemma det_rec_zero_row (n : nat) (m : matrix) (r : nat) (zrow : list value) :
  finite_matrix m → m !! r = Some zrow → Forall (λ v, v = Num 0) zrow →
  (r < n)%nat → det_rec n m = Num 0.
Proof.
  revert m r zrow. induction n as [|n IH]; intros m r zrow Hfin Hr Hz Hn; [lia|].
  destruct m as [|row rest]; [done|].
  apply Forall_cons in Hfin as [Hrow Hrest]. cbn [det_rec].
  assert (Hterms : imap (λ j a, vmul (if Nat.even j then a else vopp a)
                                  (det_rec n (delete j <$> rest))) row
                   = Num <$> replicate (length row) 0).
  { apply list_eq. intros j. rewrite list_lookup_imap, list_lookup_fmap.
    destruct (row !! j) as [a|] eqn:Ha; simpl.
    2:{ apply lookup_ge_None in Ha.
        by rewrite (proj1 (lookup_replicate_None _ _ _)) by lia. }
    rewrite lookup_replicate_2 by (by eapply lookup_lt_Some). simpl. f_equal.
    destruct (det_rec_finite n (delete j <$> rest)) as [d Hd];
      [by apply finite_matrix_delete|].
    destruct r as [|r].
    - injection Hr as ->. rewrite Forall_lookup in Hz.
      rewrite (Hz _ _ Ha), Hd. destruct (Nat.even j); simpl; f_equal; ring.
    - simpl in Hr.
      rewrite (IH (delete j <$> rest) r (delete j zrow)).
      + rewrite Forall_lookup in Hrow. apply Hrow, isfinite_Num in Ha as [q ->].
        destruct (Nat.even j); simpl; f_equal; ring.
      + by apply finite_matrix_delete.
      + by rewrite list_lookup_fmap, Hr.
      + by apply Forall_delete.
      + lia. }
  rewrite Hterms, vsum_Num, Qcsum_zeros. done.
Qed.

Lemma Qcprod_cons (q : Qc) (qs : list Qc) : Qcprod (q :: qs) = q * Qcprod qs.
Proof. done. Qed.

Lemma Qcprod_delete (qs : list Qc) (i : nat) (q : Qc) :
  qs !! i = Some q → Qcprod qs = q * Qcprod (delete i qs).
Proof.
  revert i. induction qs as [|p qs IH]; intros [|i] Hq; try done.
  - by injection Hq as ->.
  - simpl in Hq. change (delete (S i) (p :: qs)) with (p :: delete i qs).
    rewrite !Qcprod_cons, (IH i) by done. ring.
Qed.

Lemma Qcprod_nonzero (qs : list Qc) : Forall (λ q, q ≠ 0) qs → Qcprod qs ≠ 0.
Proof.
  induction 1 as [|q qs Hq _ IH]; [done|].
  rewrite Qcprod_cons. intros [?|?]%Qcmult_integral; done.
Qed.

(** The inverse of the diagonal covariance is the diagonal matrix of
    the reciprocals. *)
Lemma linalg_inv_diag_cov (qs : list Qc) :
  Forall (λ q, q ≠ 0) qs →
  linalg_inv (diag_cov (Num <$> qs)) = Ok (diag_cov (Num <$> (Qcinv <$> qs))).
Proof.
  intros Hne. unfold linalg_inv. rewrite diag_cov_length.
  rewrite decide_True by apply diag_cov_square.
  rewrite det_diag_cov.
  pose proof (Qcprod_nonzero qs Hne) as HP.
  assert (veqb (Num (Qcprod qs)) (vnum 0) = false) as ->.
  { rewrite vnum_0. simpl. apply bool_decide_eq_false_2.
    by intros ?%(inj Num). }
  f_equal. rewrite (diag_cov_imap (Qcinv <$> qs)), length_fmap.
  apply list_eq. intros i. rewrite list_lookup_fmap, list_lookup_imap.
  rewrite list_lookup_fmap.
  destruct (qs !! i) as [q|] eqn:Hq; simpl.
  2:{ by rewrite lookup_seq_ge by (by apply lookup_ge_None). }
  pose proof (lookup_lt_Some _ _ _ Hq) as Hi.
  rewrite lookup_seq_lt by done. simpl. f_equal.
  apply list_eq. intros j. rewrite list_lookup_fmap.
  destruct (decide (j < length qs)%nat) as [Hj|Hj].
  2:{ rewrite lookup_seq_ge by lia. simpl. symmetry.
      apply lookup_ge_None. rewrite length_insert, length_replicate. lia. }
  rewrite lookup_seq_lt by done. simpl. unfold cofactor.
  rewrite Forall_lookup in Hne. pose proof (Hne _ _ Hq) as Hq0.
  destruct (decide (i = j)) as [<-|Hij].
  - rewrite list_lookup_insert_eq by (by rewrite length_replicate).
    f_equal. assert (Nat.even (i + i) = true) as ->.
    { apply Nat.even_spec. exists i. lia. }
    rewrite diag_cov_minor by done. rewrite det_diag_cov.
    simpl. rewrite decide_False by done. f_equal.
    rewrite (Qcprod_delete qs i q Hq) in HP |- *.
    field. split; [done|]. intros H0. apply HP. rewrite H0. ring.
  - rewrite list_lookup_insert_ne by done.
    rewrite lookup_replicate_2 by done. f_equal.
    assert (Hdet : det (delete i <$> delete j (diag_cov (Num <$> qs))) = Num 0).
    { unfold det.
      set (r := if decide (i < j)%nat then i else (i - 1)%nat).
      apply (det_rec_zero_row _ _ r (replicate (length qs - 1) (Num 0))).
      - apply finite_matrix_delete. unfold finite_matrix.
        apply Forall_delete. apply diag_cov_finite.
      - rewrite list_lookup_fmap.
        assert (delete j (diag_cov (Num <$> qs)) !! r
                = diag_cov (Num <$> qs) !! i) as ->.
        { subst r. destruct (decide (i < j)%nat).
          - by rewrite list_lookup_delete_lt.
          - rewrite list_lookup_delete_ge by lia. f_equal. lia. }
        rewrite (diag_cov_lookup qs i q Hq). simpl. f_equal.
        rewrite list_delete_insert. by apply delete_replicate.
      - by apply Forall_replicate.
      - rewrite length_fmap, length_delete, diag_cov_length
          by (apply lookup_lt_is_Some; rewrite diag_cov_length; lia).
        subst r. destruct (decide (i < j)%nat); lia. }
    rewrite Hdet. destruct (Nat.even (j + i)); simpl;
      rewrite decide_False by done; f_equal; field; done.
Qed.

Lemma zip_with_Num (f : value → value → value) (g : Qc → Qc → Qc)
    (a b : list Qc) :
  (∀ x y, f (Num x) (Num y) = Num (g x y)) →
  zip_with f (Num <$> a) (Num <$> b) = Num <$> zip_with g a b.
Proof.
  intros Hfg. revert b. induction a as [|x a IH]; intros [|y b]; csimpl;
    try done. by rewrite Hfg, IH.
Qed.

Lemma Qcsum_unit (ds : list Qc) (j : nat) (d r : Qc) :
  ds !! j = Some d →
  Qcsum (zip_with Qcmult ds (<[j := r]> (replicate (length ds) 0))) = d * r.
Proof.
  revert j. induction ds as [|x ds IH]; intros [|j] Hj; try done; simpl in *.
  - injection Hj as ->. rewrite Qcsum_cons.
    change (Qcsum (zip_with Qcmult ds (replicate (length ds) 0)))
      with (Qcsum (zip_with Qcmult ds (replicate (length ds) (Q2Qc 0)))).
    assert (zip_with Qcmult ds (replicate (length ds) 0)
            = replicate (length ds) 0) as ->.
    { clear. induction ds as [|y ds IH]; simpl; [done|]. rewrite IH.
      f_equal. ring. }
    rewrite Qcsum_zeros. ring.
  - rewrite Qcsum_cons, (IH j) by done. ring.
Qed.

(** A vector times a diagonal matrix. *)
Lemma dot_vm_diag_cov (ds rs : list Qc) :
  length ds = length rs →
  dot_vm (Num <$> ds) (diag_cov (Num <$> rs))
  = Ok (Num <$> zip_with Qcmult ds rs).
Proof.
  intros Hlen. unfold dot_vm.
  rewrite length_fmap, diag_cov_length, decide_True by done. f_equal.
  assert (Hhead : length (default [] (head (diag_cov (Num <$> rs))))
                  = length rs).
  { rewrite diag_cov_imap. destruct rs as [|r rs]; [done|].
    simpl. by rewrite length_replicate. }
  rewrite Hhead. apply list_eq. intros j.
  rewrite !list_lookup_fmap, lookup_zip_with.
  destruct (rs !! j) as [r|] eqn:Hr.
  2:{ rewrite lookup_seq_ge by (by apply lookup_ge_None).
      by destruct (ds !! j). }
  pose proof (lookup_lt_Some _ _ _ Hr) as Hj.
  destruct (lookup_lt_is_Some_2 ds j) as [d Hd]; [lia|].
  rewrite lookup_seq_lt, Hd by done. simpl. f_equal.
  assert (Hcol : column j (diag_cov (Num <$> rs))
                 = Num <$> <[j := r]> (replicate (length rs) 0)).
  { unfold column. rewrite diag_cov_imap. apply list_eq. intros i.
    rewrite !list_lookup_fmap, list_lookup_imap.
    destruct (rs !! i) as [r'|] eqn:Hr'; simpl.
    2:{ rewrite (proj2 (lookup_ge_None _ _)); [done|].
        rewrite length_insert, length_replicate. by apply lookup_ge_None. }
    pose proof (lookup_lt_Some _ _ _ Hr') as Hi.
    destruct (decide (i = j)) as [->|Hij].
    - rewrite Hr in Hr'. injection Hr' as <-.
      rewrite list_lookup_insert_eq by (by rewrite length_replicate). simpl.
      f_equal. apply list_lookup_total_correct.
      by rewrite list_lookup_insert_eq by (by rewrite length_replicate).
    - rewrite list_lookup_insert_ne, lookup_replicate_2 by done. simpl.
      f_equal. apply list_lookup_total_correct.
      by rewrite list_lookup_insert_ne, lookup_replicate_2 by done. }
  rewrite Hcol, (zip_with_Num vmul Qcmult) by done.
  rewrite vsum_Num, <-Hlen. f_equal. by apply Qcsum_unit.
Qed.

Section probability_distance.
Variable chi2_cdf : value → nat → value.

(** X9.  [get_probability] raises only when the position is out of the
    range of one of the three tables, and then [IndexError]; whatever
    goes wrong in the computation itself is turned into NaN. *)
Theorem get_probability_raises_only_out_of_range (df ref sigma : matrix)
    (index : nat) :
  match get_probability chi2_cdf df ref sigma index with
  | Ok _ =>
      (index < length df)%nat ∧ (index < length ref)%nat ∧
      (index < length sigma)%nat
  | Raise e =>
      e = IndexError ∧
      (length df ≤ index ∨ length ref ≤ index ∨ length sigma ≤ index)%nat
  end.
Proof.
  unfold get_probability, iloc.
  destruct (sigma !! index) as [s|] eqn:Hs; simpl.
  2:{ apply lookup_ge_None in Hs. auto. }
  destruct (ref !! index) as [mu|] eqn:Hmu; simpl.
  2:{ apply lookup_ge_None in Hmu. auto. }
  destruct (df !! index) as [x|] eqn:Hx; simpl.
  2:{ apply lookup_ge_None in Hx. auto. }
  apply lookup_lt_Some in Hs, Hmu, Hx.
  by destruct (_ ≫= _) as [v|e].
Qed.

(** X10.  For a candidate, a reference and standard deviations that are
    finite, of the same number of dimensions, with no standard deviation
    equal to zero, [get_probability] is the chi-squared distribution, at
    as many degrees of freedom as there are dimensions, of the sum of
    the squared differences each divided by the standard deviation of
    its dimension (the covariance matrix holds the standard deviations,
    not their squares). *)
Theorem get_probability_scaled_distance (df ref sigma : matrix) (index : nat)
    (x mu s : list Qc) :
  df !! index = Some (Num <$> x) → ref !! index = Some (Num <$> mu) →
  sigma !! index = Some (Num <$> s) →
  length x = length s → length mu = length s → Forall (λ q, q ≠ 0) s →
  get_probability chi2_cdf df ref sigma index
  = Ok (chi2_cdf (Num (scaled_square_distance x mu s)) (length mu)).
Proof.
  intros Hx Hmu Hs Hlx Hlmu Hne.
  unfold get_probability, iloc. rewrite Hs, Hmu, Hx. simpl.
  rewrite broadcast2_same_length by (rewrite !length_fmap; lia).
  rewrite (zip_with_Num vsub Qcminus) by done. simpl.
  rewrite linalg_inv_diag_cov by done. simpl.
  rewrite dot_vm_diag_cov.
  2:{ rewrite length_zip_with, length_fmap. lia. }
  simpl. unfold dot_vv.
  rewrite decide_True by (rewrite !length_fmap, !length_zip_with, length_fmap; lia).
  simpl. rewrite length_fmap. do 2 f_equal.
  rewrite (zip_with_Num vmul Qcmult), vsum_Num by done. f_equal.
  unfold scaled_square_distance. f_equal.
  generalize (zip_with Qcminus x mu). clear.
  intros ds. revert s. induction ds as [|d ds IH]; intros [|q s]; csimpl;
    try done.
  rewrite IH. f_equal. unfold Qcdiv. ring.
Qed.
End probability_distance.

(** [get_probability_scaled_distance] on the third row of the notebook's
    example, with the identity in place of the chi-squared distribution:
    a mass that is off by 2 at a standard deviation of 1/10 gives 40. *)
Lemma get_probability_scaled_distance_witness :
  let tenth := Qc_of_Z 1 / Qc_of_Z 10 in
  let a := [[vnum 100; vnum 1]; [vnum 200; vnum 2]; [vnum 300; vnum 3]] in
  let b := [[vnum 100; vnum 1]; [vnum 200; vnum 2]; [vnum 302; vnum 3]] in
  let std := [[Num tenth; vnum 1]; [Num tenth; vnum 1]; [Num tenth; vnum 1]] in
  Forall (λ q : Qc, q ≠ 0) [tenth; Qc_of_Z 1] ∧
  get_probability (λ v _, v) a b std 2 = Ok (vnum 40).
Proof.
  intros tenth a b std.
  assert (H : Forall (λ q : Qc, q ≠ 0) [tenth; Qc_of_Z 1]) by by_computation.
  split; [assumption|].
  assert (Ha : a !! 2%nat = Some (Num <$> (Qc_of_Z <$> [300; 3]%Z)))
    by by_computation.
  assert (Hb : b !! 2%nat = Some (Num <$> (Qc_of_Z <$> [302; 3]%Z)))
    by by_computation.
  assert (Hs : std !! 2%nat = Some (Num <$> [tenth; Qc_of_Z 1]))
    by by_computation.
  rewrite (get_probability_scaled_distance (λ v _, v) a b std 2
             _ _ _ Ha Hb Hs eq_refl eq_refl H).
  by_computation.
Defined.

(** ** The mapping and the dropped columns of [calculate_deltas] *)

Lemma string_app_nil_r (s : string) : s +:+ "" = s.
Proof.
  induction s as [|a s IH]; [done|].
  change (String a (s +:+ "") = String a s). by rewrite IH.
Qed.

(** X11.  Whatever the columns of the table that was read,
    [_get_offset_dict_and_columns_to_drop] returns a mapping with
    supported modes only and with distinct dimensions, none of them
    named as a calibrated column; mobility is a dimension exactly when
    the table has a mobility column; and a column of the table is
    dropped exactly when it is neither the precursor column nor a column
    that [calculate_distance] reads for a dimension of the mapping. *)
Theorem offset_dict_and_dropped_columns (input_data_columns : list string)
    (calib : bool) :
  let od := (_get_offset_dict_and_columns_to_drop input_data_columns calib).1 in
  let columns_to_drop :=
    (_get_offset_dict_and_columns_to_drop input_data_columns calib).2 in
  Forall (λ dim, valid_mode dim.2) od ∧
  calib_names_apart od ∧
  ("mobility" ∈ od.*1 ↔ "mobility" ∈ input_data_columns) ∧
  ∀ col, col ∈ columns_to_drop ↔
         col ∈ input_data_columns ∧ col ≠ "precursor" ∧
         col ∉ distance_column calib <$> od.*1.
Proof.
  intros od columns_to_drop. subst od columns_to_drop.
  unfold _get_offset_dict_and_columns_to_drop. cbv zeta.
  set (od := if decide ("mobility" ∈ input_data_columns) then _ else _).
  assert (Hcols : (λ key, key +:+ (if calib then "_calib" else "")) <$> od.*1
                  = distance_column calib <$> od.*1).
  { apply list_fmap_ext. intros i key _. unfold distance_column, calib_name.
    destruct calib; [done | apply string_app_nil_r]. }
  cbn [fst snd]. rewrite Hcols.
  split; [|split; [|split]].
  - subst od. destruct (decide _); by_computation.
  - subst od. destruct (decide _); by_computation.
  - subst od. destruct (decide _) as [Hin|Hin]; split; intros H; try done.
    + by_computation.
    + exfalso. revert H. by_computation.
  - intros col. rewrite list_elem_of_filter, not_elem_of_app.
    rewrite list_elem_of_singleton. tauto.
Qed.

(** ** Every file has its row of offsets *)

Section alignment_rows.
Context {regressor : Type}.
Variable fit :
  option Z → matrix → matrix → option (list value) → result regressor.
Variable score : regressor → matrix → matrix → value.
Variable predict : regressor → matrix → matrix.

(** X12.  When the regression predicts one row for each row it is given,
    as [LinearRegression.predict] does, the alignment that
    [align_datasets] hands to [align_files] has exactly one row for each
    file, each as wide as there are dimensions: the lookup of the row of
    a file by its position, [alignment.iloc[idx]], cannot fail. *)
Theorem alignment_row_for_every_file (filenames : list string)
    (deltas : deltas_table) (weights : list value) (od : offset_dict)
    (n_processes : Z) (log : list log_record) (alignment : matrix) :
  (∀ reg X, length (predict reg X) = length X) →
  align_datasets_alignment fit score predict filenames deltas weights od
    n_processes = (log, Ok (Some alignment)) →
  length alignment = length filenames ∧
  Forall (λ row, length row = length od) alignment ∧
  ∀ idx, (idx < length filenames)%nat → ∃ row, iloc alignment idx = Ok row.
Proof.
  intros Hpredict Hrun.
  apply align_datasets_alignment_Some in Hrun
    as (Hlen & n_jobs & x & Hal & Hw & ->).
  apply align_fits_valid_rows in Hal as (m & reg & _ & _ & ->).
  assert (Hrows : length (mean_center (length od)
                    (with_reference_row (length od)
                       (predict reg (eye (length filenames - 1)))))
                  = length filenames).
  { unfold mean_center, with_reference_row.
    rewrite length_fmap, length_app, Hpredict. unfold eye.
    rewrite length_fmap, length_seq. simpl. lia. }
  split; [done|]. split.
  - unfold mean_center. apply Forall_fmap, Forall_forall. intros row Hrow.
    simpl. rewrite length_zip_with, frame_mean_length.
    assert (length row = length od); [|lia].
    unfold with_reference_row in Hrow.
    apply elem_of_app in Hrow as [Hrow|Hrow%list_elem_of_singleton].
    + rewrite Forall_forall in Hw. by apply Hw.
    + subst row. apply length_replicate.
  - intros idx Hidx. unfold iloc.
    destruct (lookup_lt_is_Some_2 _ idx ltac:(by rewrite Hrows)) as [row ->].
    by eexists.
Qed.
End alignment_rows.

(** [alignment_row_for_every_file] on the three files of the notebook's
    [test_align], with a regression that answers every query with one
    zero for each row. *)
Lemma alignment_row_for_every_file_witness :
  let fit := λ (_ : option Z) (_ _ : matrix) (_ : option (list value)),
               Ok () : result () in
  let score := λ (_ : ()) (_ _ : matrix), vnum 1 in
  let predict := λ (_ : ()) (X : matrix), (λ _, [vnum 0]) <$> X in
  (∀ reg X, length (predict reg X) = length X) ∧
  ∃ log alignment,
    align_datasets_alignment fit score predict ["A"; "B"; "C"]
      test_align_deltas [vnum 4; vnum 4; vnum 4] [("mass", "absolute")] 1
    = (log, Ok (Some alignment)) ∧
    length alignment = 3%nat.
Proof.
  intros fit score predict.
  assert (H : ∀ reg X, length (predict reg X) = length X).
  { intros reg X. unfold predict. apply length_fmap. }
  split; [assumption|].
  destruct (align_datasets_alignment fit score predict ["A"; "B"; "C"]
              test_align_deltas [vnum 4; vnum 4; vnum 4] [("mass", "absolute")] 1)
    as [log [[alignment|]|e]] eqn:Hrun; try (by vm_compute in Hrun).
  exists log, alignment. split; [done|].
  by destruct (alignment_row_for_every_file fit score predict _ _ _ _ _ _ _
                 H Hrun) as [Hlen _].
Defined.

(** ** Matching groups *)

Lemma filter_sublist_impl {A} (P Q : A → Prop) `{!∀ x, Decision (P x)}
    `{!∀ x, Decision (Q x)} (l : list A) :
  (∀ x, P x → Q x) → filter P l `sublist_of` filter Q l.
Proof.
  intros HPQ. induction l as [|x l IH]; [done|].
  destruct (decide (P x)) as [HP|HP].
  - rewrite !filter_cons_True by auto. by constructor.
  - rewrite (filter_cons_False P) by done.
    destruct (decide (Q x)).
    + rewrite filter_cons_True by done. by constructor.
    + by rewrite filter_cons_False by done.
Qed.

(** X13.  With a tolerance that is not negative, the files that a
    matching group transfers identifications to are among the files it
    builds its reference from, in the same order. *)
Theorem files_to_among_files_from (s : settings) (group : Z) :
  (0 ≤ match_group_tol s)%Z →
  files_to s group `sublist_of` files_from s group.
Proof.
  intros Htol. unfold files_to, files_from, files_between.
  apply fmap_sublist, filter_sublist_impl. intros [f g]. simpl. lia.
Qed.

(** [files_to_among_files_from] on three runs in one matching group. *)
Lemma files_to_among_files_from_witness :
  (0 ≤ match_group_tol c3_settings)%Z ∧
  files_to c3_settings 0 `sublist_of` files_from c3_settings 0.
Proof.
  assert (H : (0 ≤ match_group_tol c3_settings)%Z) by by_computation.
  split; [assumption|]. exact (files_to_among_files_from c3_settings 0 H).
Defined.

(** X14.  When no matching group is given in the settings, every file
    is put into group 0: with a tolerance that is not negative, the one
    group draws its reference from all the files and transfers to all
    of them, and its reference pools every row of the identification
    table that belongs to one of the files. *)
Theorem default_matching_group (s : settings) (x : list peptide) :
  matching_group s = [] → (0 ≤ match_group_tol s)%Z →
  files_from s 0 = shortnames s ∧ files_to s 0 = shortnames s ∧
  pooled_rows s x 0 = filter (λ r, pep_shortname r ∈ shortnames s) x ∧
  (shortnames s ≠ [] →
   elements (list_to_set (groups_of s) : gset Z) = [0%Z]).
Proof.
  intros Hgroup Htol.
  assert (Hall : ∀ lo hi, (lo ≤ 0 ≤ hi)%Z → files_between s lo hi = shortnames s).
  { intros lo hi Hrange. unfold files_between, groups_of.
    rewrite decide_True by done.
    induction (shortnames s) as [|f fs IH]; [done|]. simpl.
    rewrite filter_cons_True by (simpl; lia). by rewrite fmap_cons, IH. }
  assert (Hfrom : files_from s 0 = shortnames s) by (apply Hall; lia).
  split; [done|]. split; [apply Hall; lia|]. split.
  - unfold pooled_rows. by rewrite Hfrom.
  - intros Hne. unfold groups_of. rewrite decide_True by done.
    destruct (shortnames s) as [|f fs]; [done|]. simpl.
    assert (list_to_set (replicate (length fs) 0%Z) ∪ {[0%Z]}
            = ({[0%Z]} : gset Z)) as Hset.
    { apply set_eq. intros z. rewrite elem_of_union, elem_of_list_to_set.
      rewrite elem_of_replicate, elem_of_singleton. tauto. }
    rewrite (comm_L (∪)), Hset. apply elements_singleton.
Qed.

(** [default_matching_group] on three runs without matching groups. *)
Lemma default_matching_group_witness :
  matching_group c3_settings = [] ∧ (0 ≤ match_group_tol c3_settings)%Z ∧
  files_from c3_settings 0 = ["a"; "b"; "c"] ∧
  length (pooled_rows c3_settings c3_pooled 0) = 5%nat.
Proof.
  assert (H1 : matching_group c3_settings = []) by done.
  assert (H2 : (0 ≤ match_group_tol c3_settings)%Z) by by_computation.
  do 2 (split; [assumption|]).
  destruct (default_matching_group c3_settings c3_pooled H1 H2)
    as (Hfrom & _ & Hpool & _).
  split; [exact Hfrom|]. rewrite Hpool. by_computation.
Defined.

(** ** Distances of many files *)

Lemma dict_set_keys {K V} `{EqDecision K} (d : list (K * V)) (k : K) (v : V) :
  (dict_set d k v).*1 = if decide (k ∈ d.*1) then d.*1 else d.*1 ++ [k].
Proof.
  induction d as [|[k' v'] d IH]; [done|]. simpl.
  destruct (decide (k' = k)) as [->|Hne].
  - rewrite decide_True by left. done.
  - rewrite fmap_cons, IH. simpl. destruct (decide (k ∈ d.*1)) as [Hin|Hin].
    + by rewrite decide_True by (by right).
    + rewrite decide_False; [done|]. by intros [?|?]%elem_of_cons.
Qed.

Lemma dict_set_values {K V} `{EqDecision K} (P : V → Prop) (d : list (K * V))
    (k : K) (v : V) :
  Forall (λ kv, P kv.2) d → P v → Forall (λ kv, P kv.2) (dict_set d k v).
Proof.
  intros Hd Hv. induction Hd as [|[k' v'] d Hkv Hd IH]; simpl.
  - by repeat constructor.
  - destruct (decide (k' = k)); by constructor.
Qed.

Lemma calculate_distance_loop_length (t1 t2 : DataFrame) (od : offset_dict)
    (calib : bool) (deltas : list value) :
  calculate_distance_loop t1 t2 od calib = Ok deltas →
  length deltas = length od.
Proof.
  revert deltas. induction od as [|[col mode] od IH]; intros deltas.
  - by intros [= <-].
  - cbn [calculate_distance_loop].
    destruct (if decide (mode = "absolute") then _ else _) as [d|e]; [|done].
    simpl. destruct (calculate_distance_loop t1 t2 od calib) as [ds|e]; [|done].
    simpl. intros [= <-]. simpl. f_equal. by apply IH.
Qed.

(** [calculate_distance] returns one distance for each dimension. *)
Lemma calculate_distance_length (t1 t2 : DataFrame) (od : offset_dict)
    (calib : bool) (deltas : list value) (n : nat) :
  calculate_distance t1 t2 od calib = Ok (deltas, n) →
  length deltas = length od.
Proof.
  unfold calculate_distance, calculate_distance_on.
  destruct (loc t1 _) as [t1_|e]; [|done]. simpl.
  destruct (loc t2 _) as [t2_|e]; [|done]. simpl.
  destruct (calculate_distance_loop t1_ t2_ od calib) as [ds|e] eqn:Hl; [|done].
  simpl. intros [= <- _]. by eapply calculate_distance_loop_length.
Qed.

Lemma offset_dict_not_empty (input_data_columns : list string) (calib : bool) :
  (_get_offset_dict_and_columns_to_drop input_data_columns calib).1 ≠ [].
Proof.
  unfold _get_offset_dict_and_columns_to_drop. simpl. by destruct (decide _).
Qed.

Lemma dict_keys_after_spec {K} `{EqDecision K} (keys assigned : list K) :
  NoDup keys →
  NoDup (dict_keys_after keys assigned) ∧
  (∀ k, k ∈ dict_keys_after keys assigned ↔ k ∈ keys ∨ k ∈ assigned) ∧
  (NoDup (keys ++ assigned) → dict_keys_after keys assigned = keys ++ assigned).
Proof.
  revert keys. induction assigned as [|k assigned IH]; intros keys Hnd; simpl.
  { split; [done|]. split; [|by rewrite app_nil_r].
    intros k. rewrite elem_of_nil. tauto. }
  destruct (decide (k ∈ keys)) as [Hk|Hk].
  - destruct (IH keys Hnd) as (H1 & H2 & H3). split; [done|]. split.
    + intros k'. rewrite H2, elem_of_cons.
      split; [tauto|]. intros [?|[->|?]]; auto.
    + intros Hnd'. apply NoDup_app in Hnd' as (_ & Hdis & _).
      exfalso. apply (Hdis k Hk). by left.
  - assert (Hnd1 : NoDup (keys ++ [k])).
    { apply NoDup_app. split; [done|]. split; [|apply NoDup_singleton].
      by intros k' Hk' ->%list_elem_of_singleton. }
    destruct (IH (keys ++ [k]) Hnd1) as (H1 & H2 & H3). split; [done|]. split.
    + intros k'. rewrite H2, elem_of_app, list_elem_of_singleton, elem_of_cons.
      tauto.
    + intros Hnd'. rewrite H3; by rewrite <-(assoc_L (++)).
Qed.

Lemma combinations2_elem {A} (l : list A) (a b : A) :
  (a, b) ∈ combinations2 l → a ∈ l ∧ b ∈ l.
Proof.
  induction l as [|x l IH]; simpl; [by intros ?%elem_of_nil|].
  intros [Hin|Hin]%elem_of_app.
  - apply list_elem_of_fmap in Hin as (y & [= -> ->] & Hy).
    split; [by left | by right].
  - destruct (IH Hin). split; by right.
Qed.

Lemma NoDup_combinations2 {A} (l : list A) :
  NoDup l → NoDup (combinations2 l).
Proof.
  induction 1 as [|x l Hx Hnd IH]; simpl; [constructor|].
  apply NoDup_app. split; [|split; [|done]].
  - apply NoDup_fmap_2; [|done]. by intros y1 y2 [= ->].
  - intros [a b] (y & [= -> ->] & Hy)%list_elem_of_fmap Hin.
    by apply combinations2_elem in Hin as [? _].
Qed.

Lemma length_combinations2 {A} (l : list A) :
  (length l - 1 ≤ length (combinations2 l))%nat.
Proof.
  destruct l as [|x l]; simpl; [lia|].
  rewrite length_app, length_fmap. lia.
Qed.

Section calculate_deltas_facts.
Context {raw : Type}.
Variable ms_data_file : string → string.
Variable read_peptide_fdr : string → result raw.
Variable raw_columns : raw → list string.
Variable drop_columns : raw → list string → result raw.
Variable groupby_precursor_mean : raw → result DataFrame.

Local Abbreviation cache_table' :=
  (cache_table read_peptide_fdr raw_columns drop_columns groupby_precursor_mean).
Local Abbreviation calculate_deltas_loop' :=
  (calculate_deltas_loop ms_data_file read_peptide_fdr raw_columns drop_columns
     groupby_precursor_mean).
Local Abbreviation calculate_deltas' :=
  (calculate_deltas ms_data_file read_peptide_fdr raw_columns drop_columns
     groupby_precursor_mean).

Lemma cache_table_reads calib filename st :
  cache_inv st →
  let st' := (cache_table' calib filename st).1 in
  NoDup (st_reads st') ∧
  (∀ f, f ∈ st_reads st' → f ∈ st_reads st ∨ f = filename) ∧
  ((cache_table' calib filename st).2 = Ok () →
   cache_inv st' ∧ filename ∈ st_reads st' ∧
   ∀ f, f ∈ st_reads st → f ∈ st_reads st').
Proof.
  intros [Hnd Hin]. unfold cache_table.
  destruct (decide (is_Some (st_cache st !! filename))) as [Hc|Hc]; simpl.
  { split; [done|]. split; [by left|]. intros _.
    split; [done|]. split; [by apply Hin | done]. }
  assert (Hnew : filename ∉ st_reads st) by (by rewrite Hin).
  assert (Hnd' : NoDup (st_reads st ++ [filename])).
  { apply NoDup_app. split; [done|]. split; [|apply NoDup_singleton].
    by intros f Hf ->%list_elem_of_singleton. }
  assert (Hsub : ∀ f, f ∈ st_reads st ++ [filename] →
                      f ∈ st_reads st ∨ f = filename).
  { intros f [?|?%list_elem_of_singleton]%elem_of_app; auto. }
  destruct (read_peptide_fdr filename) as [df|e]; simpl; [|done].
  destruct (if decide (st_offset_dict st = []) then _ else _) as [od to_drop].
  destruct (drop_columns df to_drop ≫= groupby_precursor_mean) as [df_mean|e];
    simpl; [|done].
  split; [done|]. split; [done|]. intros _. split; [|split].
  - split; [done|]. simpl. intros f. rewrite elem_of_app, list_elem_of_singleton.
    destruct (decide (f = filename)) as [->|Hne].
    + rewrite lookup_insert_eq. split; [by eexists | by right].
    + rewrite lookup_insert_ne by done. rewrite <-Hin. tauto.
  - simpl. apply elem_of_app. right. by apply list_elem_of_singleton.
  - simpl. intros f Hf. apply elem_of_app. by left.
Qed.

Lemma calculate_deltas_loop_reads calib combos st deltas weights :
  cache_inv st →
  let out := calculate_deltas_loop' calib combos st deltas weights in
  NoDup (st_reads out.1) ∧
  (∀ f, f ∈ st_reads out.1 →
        f ∈ st_reads st ∨
        ∃ combo, combo ∈ combos ∧
                 (f = ms_data_file combo.1 ∨ f = ms_data_file combo.2)) ∧
  (∀ f, f ∈ st_reads st → is_Some (raised out.2) ∨ f ∈ st_reads out.1) ∧
  (raised out.2 = None →
   ∀ combo, combo ∈ combos →
            ms_data_file combo.1 ∈ st_reads out.1 ∧
            ms_data_file combo.2 ∈ st_reads out.1).
Proof.
  revert st deltas weights.
  induction combos as [|combo combos IH]; intros st deltas weights Hinv; simpl.
  { destruct Hinv as [Hnd _]. split; [done|]. split; [by left|].
    split; [by right|]. by intros _ combo ?%elem_of_nil. }
  pose proof (cache_table_reads calib (ms_data_file combo.1) st Hinv) as H1.
  destruct (cache_table' calib (ms_data_file combo.1) st) as [st1 [u1|e]];
    simpl in H1; destruct H1 as (Hnd1 & Hsub1 & Hok1).
  2:{ simpl. split; [done|]. split; [|split; [by left; eexists | done]].
      intros f [ ? | -> ]%Hsub1; [by left|]. right. exists combo.
      split; [by left | by left]. }
  destruct u1. destruct (Hok1 eq_refl) as (Hinv1 & Hin1 & Hmono1).
  pose proof (cache_table_reads calib (ms_data_file combo.2) st1 Hinv1) as H2.
  destruct (cache_table' calib (ms_data_file combo.2) st1) as [st2 [u2|e]];
    simpl in H2; destruct H2 as (Hnd2 & Hsub2 & Hok2).
  2:{ simpl. split; [done|]. split; [|split; [by left; eexists | done]].
      intros f [[ ? | -> ]%Hsub1 | -> ]%Hsub2; [by left| |];
        right; exists combo; (split; [by left|]); auto. }
  destruct u2. destruct (Hok2 eq_refl) as (Hinv2 & Hin2 & Hmono2).
  destruct (_ ≫= _) as [[dists weight]|e]; simpl.
  2:{ split; [done|]. split; [|split; [by left; eexists | done]].
      intros f [[ ? | -> ]%Hsub1 | -> ]%Hsub2; [by left| |];
        right; exists combo; (split; [by left|]); auto. }
  destruct (IH st2 (dict_set deltas combo dists) (weights ++ [weight]) Hinv2)
    as (Hnd & Hsub & Hkeep & Hall).
  split; [done|]. split; [|split].
  - intros f [Hf|(c & Hc & Hf)]%Hsub.
    + apply Hsub2 in Hf as [[ ? | -> ]%Hsub1 | -> ]; [by left| |];
        right; exists combo; (split; [by left|]); auto.
    + right. exists c. split; [by right | done].
  - intros f Hf. apply Hkeep. auto.
  - intros Hok c [->|Hc]%elem_of_cons; [|by apply Hall].
    split.
    + destruct (Hkeep (ms_data_file combo.1)) as [[e He]|?]; [auto| |done].
      by rewrite Hok in He.
    + destruct (Hkeep (ms_data_file combo.2)) as [[e He]|?]; [auto| |done].
      by rewrite Hok in He.
Qed.

Lemma cache_inv_init : cache_inv deltas_state_init.
Proof.
  split; [constructor|]. intros f. simpl. rewrite lookup_empty.
  split; [by intros ?%elem_of_nil | by intros [? ?]].
Qed.

(** X15.  The cache of [calculate_deltas]: whatever happens, no file is
    read twice and only data files of compared files are read; and when
    the call returns, the data files of both files of every pair have
    been read. *)
Theorem calculate_deltas_reads_each_file_once
    (combos : list (string * string)) (calib : bool) :
  let out := calculate_deltas ms_data_file read_peptide_fdr raw_columns
               drop_columns groupby_precursor_mean combos calib in
  reads_of ms_data_file combos out.1 ∧
  (raised out.2 = None →
   ∀ combo, combo ∈ combos →
            ms_data_file combo.1 ∈ out.1 ∧ ms_data_file combo.2 ∈ out.1).
Proof.
  cbv zeta.
  unfold calculate_deltas, reads_of.
  pose proof (calculate_deltas_loop_reads calib combos deltas_state_init [] []
                cache_inv_init) as (Hnd & Hsub & _ & Hall).
  destruct (calculate_deltas_loop' calib combos deltas_state_init [] [])
    as [st [[deltas weights]|e]]; simpl in *.
  - split; [split; [done|]|by apply Hall].
    intros f [Hf|?]%Hsub; [by apply elem_of_nil in Hf | done].
  - split; [split; [done|]|done].
    intros f [Hf|?]%Hsub; [by apply elem_of_nil in Hf | done].
Qed.
(** Once a table has been cached the mapping is not empty, and a mapping
    that is not empty is never replaced. *)
Lemma cache_table_offset calib filename st :
  let out := cache_table' calib filename st in
  (st_offset_dict st ≠ [] → st_offset_dict out.1 = st_offset_dict st) ∧
  (out.2 = Ok () →
   (∀ g, is_Some (st_cache st !! g) → st_offset_dict st ≠ []) →
   st_offset_dict out.1 ≠ [] ∧
   ∀ g, is_Some (st_cache out.1 !! g) → st_offset_dict out.1 ≠ []) ∧
  (st_cache st = ∅ → st_offset_dict st = [] → out.2 = Ok () →
   ∃ df, read_peptide_fdr filename = Ok df ∧
         st_offset_dict out.1
         = (_get_offset_dict_and_columns_to_drop (raw_columns df) calib).1).
Proof.
  unfold cache_table.
  destruct (decide (is_Some (st_cache st !! filename))) as [Hc|Hc];
    cbn [fst snd].
  { split; [done|]. split.
    - intros _ HJ. split; [by apply (HJ filename) | done].
    - intros Hempty. rewrite Hempty, lookup_empty in Hc. by destruct Hc. }
  destruct (read_peptide_fdr filename) as [df|e]; cbn [fst snd]; [|done].
  destruct (decide (st_offset_dict st = [])) as [Hod|Hod].
  - destruct (_get_offset_dict_and_columns_to_drop (raw_columns df) calib)
      as [od to_drop] eqn:Hget.
    assert (Hne : od ≠ []).
    { pose proof (offset_dict_not_empty (raw_columns df) calib) as H.
      by rewrite Hget in H. }
    destruct (drop_columns df to_drop ≫= groupby_precursor_mean)
      as [df_mean|e]; cbn [fst snd st_offset_dict]; [|done].
    split; [done|]. split; [done|]. intros _ _ _. exists df.
    split; [done|]. by rewrite Hget.
  - destruct (drop_columns df (st_columns_to_drop st)
                ≫= groupby_precursor_mean) as [df_mean|e];
      cbn [fst snd st_offset_dict]; [|done].
    split; [done|]. split; [done|]. by intros _ ?.
Qed.

Lemma calculate_deltas_loop_result calib combos st deltas weights st'
    deltas' weights' :
  (∀ g, is_Some (st_cache st !! g) → st_offset_dict st ≠ []) →
  calculate_deltas_loop' calib combos st deltas weights
  = (st', Ok (deltas', weights')) →
  length weights' = (length weights + length combos)%nat ∧
  deltas'.*1 = dict_keys_after deltas.*1 combos ∧
  (st_offset_dict st ≠ [] → st_offset_dict st' = st_offset_dict st) ∧
  (Forall (λ d, length d.2 = length (st_offset_dict st')) deltas →
   Forall (λ d, length d.2 = length (st_offset_dict st')) deltas').
Proof.
  revert st deltas weights.
  induction combos as [|combo combos IH]; intros st deltas weights HJ; simpl.
  { intros [= <- <- <-]. split; [lia|]. done. }
  pose proof (cache_table_offset calib (ms_data_file combo.1) st) as H1.
  destruct (cache_table' calib (ms_data_file combo.1) st) as [st1 [u1|e]];
    [|done].
  destruct u1. simpl in H1. destruct H1 as (Hkeep1 & Hok1 & _).
  destruct (Hok1 eq_refl HJ) as [Hne1 HJ1].
  pose proof (cache_table_offset calib (ms_data_file combo.2) st1) as H2.
  destruct (cache_table' calib (ms_data_file combo.2) st1) as [st2 [u2|e]];
    [|done].
  destruct u2. simpl in H2. destruct H2 as (Hkeep2 & Hok2 & _).
  destruct (Hok2 eq_refl HJ1) as [Hne2 HJ2].
  destruct (_ ≫= _) as [[dists weight]|e] eqn:Hdist; [|done].
  intros Hrun.
  destruct (IH st2 _ _ HJ2 Hrun) as (Hlen & Hkeys & Hod & Hrows).
  split; [|split; [|split]].
  - rewrite Hlen, length_app. simpl. lia.
  - by rewrite Hkeys, dict_set_keys.
  - intros Hne. rewrite (Hod Hne2), (Hkeep2 Hne1). by apply Hkeep1.
  - intros Hall. apply Hrows.
    apply (dict_set_values (λ row, length row = length (st_offset_dict st')));
      [done|].
    rewrite (Hod Hne2).
    destruct (cached st2 (ms_data_file combo.1)) as [df1|e]; [|done].
    destruct (cached st2 (ms_data_file combo.2)) as [df2|e]; [|done].
    simpl in Hdist. by eapply calculate_distance_length.
Qed.

Lemma calculate_deltas_result (combos : list (string * string))
    (calib : bool) (reads : list string) (deltas : deltas_table)
    (weights : list nat) (od : offset_dict) :
  calculate_deltas' combos calib = (reads, Ok (deltas, weights, od)) →
  length weights = length combos ∧
  NoDup deltas.*1 ∧ (∀ combo, combo ∈ deltas.*1 ↔ combo ∈ combos) ∧
  (NoDup combos → deltas.*1 = combos) ∧
  Forall (λ d, length d.2 = length od) deltas.
Proof.
  unfold calculate_deltas.
  destruct (calculate_deltas_loop' calib combos deltas_state_init [] [])
    as [st [[deltas' weights']|e]] eqn:Hrun; [|done].
  intros [= <- <- <- <-].
  apply calculate_deltas_loop_result in Hrun as (Hlen & Hkeys & _ & Hrows).
  2:{ intros g. simpl. rewrite lookup_empty. by intros [? ?]. }
  destruct (dict_keys_after_spec [] combos (NoDup_nil_2)) as (Hnd & Hin & Heq).
  simpl in Hkeys. rewrite Hkeys.
  split; [done|]. split; [done|]. split; [|split].
  - intros combo. rewrite Hin, elem_of_nil. tauto.
  - intros Hc. by apply Heq.
  - by apply Hrows.
Qed.

(** X16.  When [calculate_deltas] returns, there is one weight for each
    pair it was given, and the table of the distances has one row for
    each distinct pair, in the order in which the pairs first occur, as
    wide as the mapping has dimensions: a pair that is given twice has
    two weights and one row. *)
Theorem calculate_deltas_rows_and_weights (combos : list (string * string))
    (calib : bool) (reads : list string) (deltas : deltas_table)
    (weights : list nat) (od : offset_dict) :
  calculate_deltas ms_data_file read_peptide_fdr raw_columns drop_columns
    groupby_precursor_mean combos calib
  = (reads, Ok (deltas, weights, od)) →
  length weights = length combos ∧
  NoDup deltas.*1 ∧ (∀ combo, combo ∈ deltas.*1 ↔ combo ∈ combos) ∧
  (NoDup combos → deltas.*1 = combos) ∧
  Forall (λ d, length d.2 = length od) deltas.
Proof. apply calculate_deltas_result. Qed.

(** X17.  The mapping that [calculate_deltas] returns, and with it the
    dimensions of all the distances, is fixed by the columns of the
    first file of the first pair alone. *)
Theorem calculate_deltas_mapping_from_first_file (combo : string * string)
    (combos : list (string * string)) (calib : bool) (reads : list string)
    (deltas : deltas_table) (weights : list nat) (od : offset_dict) :
  calculate_deltas ms_data_file read_peptide_fdr raw_columns drop_columns
    groupby_precursor_mean (combo :: combos) calib
  = (reads, Ok (deltas, weights, od)) →
  ∃ df, read_peptide_fdr (ms_data_file combo.1) = Ok df ∧
        od = (_get_offset_dict_and_columns_to_drop (raw_columns df) calib).1.
Proof.
  unfold calculate_deltas. cbn [calculate_deltas_loop].
  pose proof (cache_table_offset calib (ms_data_file combo.1)
                deltas_state_init) as H1.
  destruct (cache_table' calib (ms_data_file combo.1) deltas_state_init)
    as [st1 [u1|e]]; [|done].
  destruct u1. simpl in H1. destruct H1 as (_ & Hok1 & Hfirst).
  destruct (Hfirst eq_refl eq_refl eq_refl) as (df & Hread & Hod).
  destruct Hok1 as [Hne1 HJ1]; [done| |].
  { intros g. rewrite lookup_empty. by intros [? ?]. }
  pose proof (cache_table_offset calib (ms_data_file combo.2) st1) as H2.
  destruct (cache_table' calib (ms_data_file combo.2) st1) as [st2 [u2|e]];
    [|done].
  destruct u2. simpl in H2. destruct H2 as (Hkeep2 & Hok2 & _).
  destruct (Hok2 eq_refl HJ1) as [Hne2 HJ2].
  destruct (_ ≫= _) as [[dists weight]|e]; [|done].
  destruct (calculate_deltas_loop' calib combos st2 _ _)
    as [st [[deltas' weights']|e]] eqn:Hrun; [|done].
  intros [= <- <- <- <-].
  apply calculate_deltas_loop_result in Hrun as (_ & _ & Hkeep & _); [|done].
  exists df. split; [done|]. by rewrite (Hkeep Hne2), (Hkeep2 Hne1).
Qed.
End calculate_deltas_facts.

(** ** The pairs of [align_datasets] *)

Section align_datasets_pairs.
Context {raw regressor : Type}.
Variable ms_data_file : string → string.
Variable read_peptide_fdr : string → result raw.
Variable raw_columns : raw → list string.
Variable drop_columns : raw → list string → result raw.
Variable groupby_precursor_mean : raw → result DataFrame.
Variable fit :
  option Z → matrix → matrix → option (list value) → result regressor.
Variable score : regressor → matrix → matrix → value.
Variable predict : regressor → matrix → matrix.

(** X18.  In [align_datasets] the pairs are all the combinations of two
    of the file names.  When the file names are distinct and
    [calculate_deltas] returns, [align] is given one row and one weight
    for each combination, every pair names files of the list, so that
    the lookup of their positions cannot fail, and the low-overlap
    record is never logged, because there are never fewer combinations
    than files but one. *)
Theorem align_datasets_all_pairs (filenames : list string) (calib : bool)
    (reads : list string) (deltas : deltas_table) (weights : list nat)
    (od : offset_dict) (n_jobs : option Z) :
  NoDup filenames →
  calculate_deltas ms_data_file read_peptide_fdr raw_columns drop_columns
    groupby_precursor_mean (combinations2 filenames) calib
  = (reads, Ok (deltas, weights, od)) →
  deltas.*1 = combinations2 filenames ∧
  length weights = length deltas ∧
  Forall (known_pair filenames) deltas ∧
  LowOverlap ∉ (align fit score predict deltas filenames
                  (Some ((λ n, vnum (Z.of_nat n)) <$> weights)) n_jobs).1.
Proof.
  intros Hnd Hrun.
  apply calculate_deltas_result in Hrun as (Hlen & _ & _ & Hkeys & _).
  specialize (Hkeys (NoDup_combinations2 _ Hnd)).
  assert (Hrows : length deltas = length (combinations2 filenames)).
  { by rewrite <-Hkeys, length_fmap. }
  split; [done|]. split; [lia|]. split.
  - apply Forall_forall. intros [[a b] row] Hin.
    assert (Hab : (a, b) ∈ combinations2 filenames).
    { rewrite <-Hkeys. apply list_elem_of_fmap. by exists ((a, b), row). }
    by apply combinations2_elem in Hab.
  - intros Hlow%align_low_overlap_only_if.
    pose proof (length_combinations2 filenames). lia.
Qed.
End align_datasets_pairs.

(** [calculate_deltas_rows_and_weights] on three pairs of which one is
    given twice: three weights, two rows. *)
Lemma calculate_deltas_rows_and_weights_witness :
  ∃ reads deltas weights od,
    calculate_deltas test_ms_data_file test_read test_raw_columns test_drop Ok
      test_combos false
    = (reads, Ok (deltas, weights, od)) ∧
    length weights = 3%nat ∧ deltas.*1 = [("a", "b"); ("a", "c")].
Proof.
  destruct (calculate_deltas test_ms_data_file test_read test_raw_columns
              test_drop Ok test_combos false)
    as [reads [[[deltas weights] od]|e]] eqn:Hrun; [|by vm_compute in Hrun].
  exists reads, deltas, weights, od. split; [done|].
  destruct (calculate_deltas_rows_and_weights _ _ _ _ _ _ _ _ _ _ _ Hrun)
    as (Hlen & _).
  split; [exact Hlen|].
  vm_compute in Hrun. by injection Hrun as _ <- _ _.
Defined.

(** [calculate_deltas_mapping_from_first_file] on the same pairs: the
    first file has no mobility column, and the mapping has none. *)
Lemma calculate_deltas_mapping_from_first_file_witness :
  ∃ reads deltas weights od,
    calculate_deltas test_ms_data_file test_read test_raw_columns test_drop Ok
      test_combos false
    = (reads, Ok (deltas, weights, od)) ∧
    od = [("mz", "relative"); ("rt", "absolute")].
Proof.
  destruct (calculate_deltas test_ms_data_file test_read test_raw_columns
              test_drop Ok test_combos false)
    as [reads [[[deltas weights] od]|e]] eqn:Hrun; [|by vm_compute in Hrun].
  exists reads, deltas, weights, od. split; [done|].
  destruct (calculate_deltas_mapping_from_first_file _ _ _ _ _ _ _ _ _ _ _ _
              Hrun) as (df & Hread & ->).
  vm_compute in Hread. injection Hread as <-. by vm_compute.
Defined.

(** [align_datasets_all_pairs] on three files. *)
Lemma align_datasets_all_pairs_witness :
  NoDup ["a"; "b"; "c"] ∧
  ∃ reads deltas weights od,
    calculate_deltas test_ms_data_file test_read test_raw_columns test_drop Ok
      (combinations2 ["a"; "b"; "c"]) false
    = (reads, Ok (deltas, weights, od)) ∧
    deltas.*1 = [("a", "b"); ("a", "c"); ("b", "c")] ∧
    length weights = length deltas.
Proof.
  assert (H : NoDup ["a"; "b"; "c"]) by by_computation.
  split; [assumption|].
  destruct (calculate_deltas test_ms_data_file test_read test_raw_columns
              test_drop Ok (combinations2 ["a"; "b"; "c"]) false)
    as [reads [[[deltas weights] od]|e]] eqn:Hrun; [|by vm_compute in Hrun].
  exists reads, deltas, weights, od. split; [done|].
  destruct (align_datasets_all_pairs test_ms_data_file test_read
              test_raw_columns test_drop Ok
              (λ _ _ observed _, Ok observed) (λ _ _ _, vnum 1) (λ reg _, reg)
              _ _ _ _ _ _ None H Hrun) as (Hkeys & Hlen & _).
  split; [exact Hkeys | exact Hlen].
Defined.

(** ** Calibrating a table again *)

Lemma calib_names_apart_sources (t : DataFrame) (od : offset_dict)
    (col : string) :
  calib_names_apart od → col ∈ od.*1 →
  (col ∉ calib_name <$> od.*1) ∧ (spec_source t col ∉ calib_name <$> od.*1).
Proof.
  intros [_ Hap] Hcol. rewrite Forall_forall in Hap. specialize (Hap _ Hcol).
  rewrite Forall_forall in Hap.
  assert (Hc : col ∉ calib_name <$> od.*1).
  { intros (c' & -> & Hc')%list_elem_of_fmap. by apply (Hap c'). }
  split; [done|]. unfold spec_source. destruct (has_column t col); [done|].
  intros (c' & Heq & _)%list_elem_of_fmap.
  by apply apex_name_ne_calib_name in Heq.
Qed.

(** X19.  Calibration does not compound: [calib_table] reads the columns
    of the dimensions and writes the [_calib] columns, so calibrating a
    table that was calibrated before, with other offsets, gives the
    table that the new offsets give on the table as it was before any
    calibration. *)
Theorem calib_table_again (table : DataFrame)
    (delta delta' : gmap string value) (od : offset_dict) :
  calibratable table delta od → calibratable table delta' od →
  calib_names_apart od →
  calib_table (calib_table table delta od).1 delta' od
  = calib_table table delta' od.
Proof.
  intros Hcal Hcal' Hap.
  destruct (calib_table_spec table delta od Hcal Hap)
    as (t1 & Hrun1 & Hidx1 & _ & Hframe1).
  destruct (calib_table_spec table delta' od Hcal' Hap)
    as (t2 & Hrun2 & Hidx2 & Hw2 & Hframe2).
  rewrite Hrun1, Hrun2. cbn [fst].
  assert (Hsame : ∀ col, col ∈ od.*1 →
            has_column t1 col = has_column table col ∧
            spec_source t1 col = spec_source table col ∧
            df_columns t1 !! spec_source table col
            = df_columns table !! spec_source table col).
  { intros col Hcol.
    destruct (calib_names_apart_sources table od col Hap Hcol) as [Hc Hs].
    assert (Hh : has_column t1 col = has_column table col).
    { unfold has_column. by rewrite Hframe1. }
    split; [done|]. split; [|by apply Hframe1].
    unfold spec_source. by rewrite Hh. }
  assert (Hcal1 : calibratable t1 delta' od).
  { unfold calibratable in *. rewrite Forall_forall in Hcal' |- *.
    intros [c m] Hin. destruct (Hcal' _ Hin) as (Hd & Hsrc & Hm). simpl in *.
    assert (Hc : c ∈ od.*1) by (apply list_elem_of_fmap; by exists (c, m)).
    destruct (Hsame c Hc) as (Hh & Hs & Hl).
    split; [done|]. split.
    - rewrite Hs. unfold has_column in *. by rewrite Hl.
    - destruct Hm as [?|[? ?]]; [by left|]. right. by rewrite Hh. }
  destruct (calib_table_spec t1 delta' od Hcal1 Hap)
    as (t3 & Hrun3 & Hidx3 & Hw3 & Hframe3).
  rewrite Hrun3. f_equal.
  destruct t3 as [idx3 cols3], t2 as [idx2 cols2]. simpl in *.
  f_equal; [congruence|].
  apply map_eq. intros c.
  destruct (decide (c ∈ calib_name <$> od.*1)) as [Hc|Hc].
  - apply list_elem_of_fmap in Hc as (col & -> & Hcol).
    pose proof Hcol as Hcol'.
    apply list_elem_of_fmap in Hcol' as ([col' mode] & -> & Hin). simpl in *.
    destruct (Hw3 _ _ Hin) as (src3 & d3 & Hs3 & Hd3 & ->).
    destruct (Hw2 _ _ Hin) as (src2 & d2 & Hs2 & Hd2 & ->).
    destruct (Hsame col' Hcol) as (_ & Hs & Hl).
    rewrite Hs, Hl in Hs3. congruence.
  - by rewrite Hframe3, Hframe2, Hframe1.
Qed.

(** [calib_table_again] on the first table of the notebook's test:
    calibrating by 1 after calibrating by 3 leaves the masses minus 1. *)
Lemma calib_table_again_witness :
  calibratable test_df_1 test_delta_2 test_offset_dict ∧
  calibratable test_df_1 test_delta test_offset_dict ∧
  calib_names_apart test_offset_dict ∧
  getcol (calib_table (calib_table test_df_1 test_delta_2 test_offset_dict).1
            test_delta test_offset_dict).1 "mass_calib"
  = Ok (vnum <$> [9; 19; 29; 39; 49]%Z).
Proof.
  assert (H1 : calibratable test_df_1 test_delta_2 test_offset_dict)
    by by_computation.
  assert (H2 : calibratable test_df_1 test_delta test_offset_dict)
    by by_computation.
  assert (H3 : calib_names_apart test_offset_dict) by by_computation.
  do 3 (split; [assumption|]).
  rewrite (calib_table_again _ _ _ _ H1 H2 H3). by_computation.
Defined.

(** ** Files without a shared precursor *)

Lemma calculate_distance_loop_empty (t1_ t2_ : DataFrame) (od : offset_dict)
    (calib : bool) :
  Forall (λ dim, valid_mode dim.2 ∧
                 df_columns t1_ !! distance_column calib dim.1 = Some [] ∧
                 df_columns t2_ !! distance_column calib dim.1 = Some []) od →
  calculate_distance_loop t1_ t2_ od calib = Ok (replicate (length od) NaN).
Proof.
  induction 1 as [|[col mode] od (Hm & H1 & H2) _ IH]; [done|].
  cbn [calculate_distance_loop]. fold (distance_column calib col).
  simpl in Hm, H1, H2. unfold getcol. rewrite H1, H2, IH.
  destruct Hm as [->| ->]; by vm_compute.
Qed.

(** X20.  Two tables that share no precursor, each with the column of
    every dimension: [calculate_distance] raises nothing and returns NaN
    for every dimension with the weight 0; and [align] leaves a pair
    with such a row of distances out of the regression. *)
Theorem calculate_distance_no_shared_precursor (table_1 table_2 : DataFrame)
    (od : offset_dict) (calib : bool) :
  index_set table_1 ∩ index_set table_2 = ∅ →
  dims_available table_1 table_2 od calib →
  calculate_distance table_1 table_2 od calib
  = Ok (replicate (length od) NaN, 0%nat) ∧
  (od ≠ [] →
   ∀ pair deltas_1 deltas_2,
     valid_comparisons
       (deltas_1 ++ (pair, replicate (length od) NaN) :: deltas_2)
     = valid_comparisons deltas_1 ++ valid_comparisons deltas_2).
Proof.
  intros Hdisj Hdims. split.
  - unfold calculate_distance, shared_precursors. rewrite Hdisj, elements_empty.
    unfold calculate_distance_on, loc. simpl.
    rewrite calculate_distance_loop_empty; [done|].
    unfold dims_available in Hdims.
    eapply Forall_impl; [exact Hdims|]. intros [col mode] (Hm & H1 & H2).
    simpl in *. split; [done|].
    apply has_column_true in H1 as [v1 H1]. apply has_column_true in H2 as [v2 H2].
    unfold take_rows. by rewrite !lookup_fmap, H1, H2.
  - intros Hne pair deltas_1 deltas_2. rewrite !valid_comparisons_spec.
    rewrite fmap_app, fmap_cons, filter_app, filter_cons_False; [done|].
    simpl. intros Hall. destruct od as [|dim od]; [done|].
    simpl in Hall. by apply Forall_cons in Hall as [? _].
Qed.

(** [calculate_distance_no_shared_precursor] on two tables with the rows
    A to E and the row Z. *)
Lemma calculate_distance_no_shared_precursor_witness :
  let other := mkDataFrame ["Z"]
                 {[ "mass" := [vnum 10]; "mobility" := [vnum 10] ]} in
  index_set test_df_1 ∩ index_set other = ∅ ∧
  dims_available test_df_1 other test_offset_dict false ∧
  calculate_distance test_df_1 other test_offset_dict false
  = Ok ([NaN; NaN], 0%nat).
Proof.
  intros other.
  assert (H1 : index_set test_df_1 ∩ index_set other = ∅) by by_computation.
  assert (H2 : dims_available test_df_1 other test_offset_dict false)
    by by_computation.
  do 2 (split; [assumption|]).
  by destruct (calculate_distance_no_shared_precursor _ _ _ _ H1 H2) as [-> _].
Defined.

(** ** Two runs, from the distance to the calibrated distance *)




